(** * The OAuth authorization flow of nbngcli

    (module [oauth-flow], the [OAuthFlow] class imported by [cli.ts])

    A shallow embedding of the [OAuthFlow] class: the authorization URL
    builder, the automated flow (loopback listener, browser launch and
    deadline timer), the manual flow (pasted redirect URL) and
    [authorize()].

    The class is callback driven.  Each callback of the source is one
    transition of a state machine over the fields of the instance
    ([this.oauth2Client], [this.server], [this.timeoutId]) and over the
    objects the Node.js runtime holds for it (servers, timers, pending
    token exchanges, console prompts, promises).  Everything the code
    does to the outside world is appended to a chronological log. *)

From Stdlib Require Import Ascii String NArith Lia.
From stdpp Require Import base strings list gmap pretty.

Local Open Scope string_scope.

(** ** Strings as the code builds them *)

Module Uri.

(** The characters [encodeURIComponent] leaves alone:
    [A-Z a-z 0-9 - _ . ! ~ * ' ( )].  Strings are sequences of UTF-8
    bytes, so every other byte becomes [%XX]. *)
Definition unreserved (c : ascii) : bool :=
  let n := N_of_ascii c in
  ((65 <=? n) && (n <=? 90) || (97 <=? n) && (n <=? 122)
   || (48 <=? n) && (n <=? 57)
   || (n =? 45) || (n =? 95) || (n =? 46) || (n =? 33) || (n =? 126)
   || (n =? 42) || (n =? 39) || (n =? 40) || (n =? 41))%N.

Definition hexDigit (n : N) : ascii :=
  ascii_of_N (if (n <? 10)%N then 48 + n else 55 + n)%N.

Definition percent (c : ascii) : string :=
  let n := N_of_ascii c in
  String "%" (String (hexDigit (n / 16)) (String (hexDigit (n mod 16)) EmptyString)).

Fixpoint encodeURIComponent (s : string) : string :=
  match s with
  | EmptyString => EmptyString
  | String c rest =>
      (if unreserved c then String c EmptyString else percent c)
      +:+ encodeURIComponent rest
  end.

(** What an encoded component is made of: unreserved characters and
    the percent sign. *)
Definition safe (c : ascii) : bool := unreserved c || Ascii.eqb c "%".

Fixpoint allSafe (s : string) : bool :=
  match s with
  | EmptyString => true
  | String c rest => safe c && allSafe rest
  end.

End Uri.

(** ** Constants of the module *)

(** [const SCOPES = [...]] *)
Definition SCOPES : list string :=
  [ "https://mail.google.com/";
    "https://www.googleapis.com/auth/calendar";
    "https://www.googleapis.com/auth/drive" ].

(** [const TIMEOUT_MS = 2 * 60 * 1000] *)
Definition TIMEOUT_MS : N := 2 * 60 * 1000.

(** The template literal both flows use for [authUrl]; [scopeStr] is
    [SCOPES.map(s => encodeURIComponent(s)).join("%20")]. *)
Definition scopeStr : string :=
  String.concat "%20" (map Uri.encodeURIComponent SCOPES).

Definition buildAuthUrl (clientId redirectUri : string) : string :=
  "https://accounts.google.com/o/oauth2/v2/auth?client_id=" +:+ clientId
  +:+ "&redirect_uri=" +:+ Uri.encodeURIComponent redirectUri
  +:+ "&response_type=code&scope=" +:+ scopeStr
  +:+ "&access_type=offline&prompt=consent".

(** ** Values the callbacks exchange *)

(** One entry of a parsed query object ([url.parse(u, true).query]):
    a string, or an array of strings when the parameter is repeated. *)
Inductive qval :=
| QStr (s : string)
| QArr (l : list string).

(** JavaScript's [String(v)]. *)
Definition jsString (v : qval) : string :=
  match v with
  | QStr s => s
  | QArr l => String.concat "," l
  end.

(** JavaScript truthiness of [query.k]: [undefined] and the empty string
    are falsy, every other string and every array is truthy. *)
Definition truthy (v : option qval) : bool :=
  match v with
  | None => false
  | Some (QStr EmptyString) => false
  | Some _ => true
  end.

(** [x || undefined] on [string | null | undefined]. *)
Definition orUndefined (s : option string) : option string :=
  match s with
  | Some EmptyString => None
  | other => other
  end.

(** [interface AuthResult].  [error] holds whatever the code stores in
    it: a message, or the raw [query.error] ([as string] is erased at
    run time). *)
Record AuthResult := {
  success : bool;
  refreshToken : option string;
  error : option qval
}.

Definition failure (e : qval) : AuthResult :=
  {| success := false; refreshToken := None; error := Some e |}.

Definition succeeded (rt : option string) : AuthResult :=
  {| success := true; refreshToken := orUndefined rt; error := None |}.

(** What [await this.oauth2Client.getToken(code)] produces: the tokens
    (of which the flow reads [refresh_token] only), or an exception,
    reduced to the message the [catch] blocks extract from it. *)
Inductive Exchanged :=
| Tokens (refresh_token : option string)
| Throws (message : string).

(** The result of [url.parse(input, true)] inside the manual flow's
    [try]: the pathname and the query, or an exception. *)
Inductive Parsed :=
| ParsedUrl (pathname : option string) (query : gmap string qval)
| ParseThrows (message : string).

Inductive Platform := Darwin | Win32 | OtherPlatform.

(** ** The log of what the code does *)

Inductive Effect :=
| EConsoleLog (line : string)
| ECreateServer (h : nat)
| EListen (h : nat)
| ESpawn (child : nat) (cmd : string) (args : list string)
| ESetTimeout (t : nat) (ms : N)
| EClearTimeout (t : nat)
| EServerClose (h : nat)
| ERespond (status : nat) (body : string)
| EGetToken (k : nat) (code : qval) (redirectUri : option string)
| EQuestion (p : nat) (prompt : string)
| ERlClose (p : nat)
| EResolve (a : nat) (r : AuthResult).

(** ** The instance and the runtime objects it refers to *)

(** [new OAuth2Client(clientId, clientSecret, redirectUri?)] *)
Record OAuth2Client := {
  _clientId : string;
  _clientSecret : string;
  _redirectUri : option string
}.

(** A server is binding after [listen()], listening once the
    ['listening'] callback ran, draining after [close()] on a listening
    server ([close()] stops it from accepting new connections; a request
    on a connection that is already open still reaches the handler),
    and dead when [close()] came before it listened or binding
    failed. *)
Inductive SrvPhase := Binding | Listening (port : N) | Draining | Dead.

(** Servers, timers, exchanges and prompts are closures over the
    [resolve] of the attempt that made them: [*_attempt] is the index
    of that attempt's promise. *)
Record Server := { srv_phase : SrvPhase; srv_attempt : nat }.
Record Timer := { tm_armed : bool; tm_attempt : nat }.

(** Which [await getToken] an exchange returns to. *)
Inductive Awaiter := InHandleCallback | InManualFlow.

Record Exchange := { ex_pending : bool; ex_awaiter : Awaiter; ex_attempt : nat }.
Record Prompt := { pr_pending : bool; pr_attempt : nat }.

Record State := {
  oauth2Client : OAuth2Client;      (* this.oauth2Client *)
  server : option nat;              (* this.server: a handle, or null *)
  timeoutId : option nat;           (* this.timeoutId: a handle, or null *)
  platform : Platform;              (* process.platform *)
  servers : list Server;
  timers : list Timer;
  exchanges : list Exchange;
  prompts : list Prompt;
  children : nat;                   (* processes spawned so far *)
  promises : list (option AuthResult);
  crashed : bool;                   (* an uncaught exception ended the process *)
  log : list Effect
}.

(** [new OAuthFlow(clientId, clientSecret)] *)
Definition newOAuthFlow (clientId clientSecret : string) (pf : Platform) : State :=
  {| oauth2Client := {| _clientId := clientId; _clientSecret := clientSecret;
                        _redirectUri := None |};
     server := None; timeoutId := None; platform := pf;
     servers := []; timers := []; exchanges := []; prompts := [];
     children := 0; promises := []; crashed := false; log := [] |}.

(** Field updates ([this.f = v], and the runtime's own bookkeeping). *)
Definition with_oauth2Client (v : OAuth2Client) (s : State) : State :=
  {| oauth2Client := v; server := server s; timeoutId := timeoutId s;
     platform := platform s; servers := servers s; timers := timers s;
     exchanges := exchanges s; prompts := prompts s; children := children s;
     promises := promises s; crashed := crashed s; log := log s |}.

Definition with_server (v : option nat) (s : State) : State :=
  {| oauth2Client := oauth2Client s; server := v; timeoutId := timeoutId s;
     platform := platform s; servers := servers s; timers := timers s;
     exchanges := exchanges s; prompts := prompts s; children := children s;
     promises := promises s; crashed := crashed s; log := log s |}.

Definition with_timeoutId (v : option nat) (s : State) : State :=
  {| oauth2Client := oauth2Client s; server := server s; timeoutId := v;
     platform := platform s; servers := servers s; timers := timers s;
     exchanges := exchanges s; prompts := prompts s; children := children s;
     promises := promises s; crashed := crashed s; log := log s |}.

Definition with_servers (v : list Server) (s : State) : State :=
  {| oauth2Client := oauth2Client s; server := server s; timeoutId := timeoutId s;
     platform := platform s; servers := v; timers := timers s;
     exchanges := exchanges s; prompts := prompts s; children := children s;
     promises := promises s; crashed := crashed s; log := log s |}.

Definition with_timers (v : list Timer) (s : State) : State :=
  {| oauth2Client := oauth2Client s; server := server s; timeoutId := timeoutId s;
     platform := platform s; servers := servers s; timers := v;
     exchanges := exchanges s; prompts := prompts s; children := children s;
     promises := promises s; crashed := crashed s; log := log s |}.

Definition with_exchanges (v : list Exchange) (s : State) : State :=
  {| oauth2Client := oauth2Client s; server := server s; timeoutId := timeoutId s;
     platform := platform s; servers := servers s; timers := timers s;
     exchanges := v; prompts := prompts s; children := children s;
     promises := promises s; crashed := crashed s; log := log s |}.

Definition with_prompts (v : list Prompt) (s : State) : State :=
  {| oauth2Client := oauth2Client s; server := server s; timeoutId := timeoutId s;
     platform := platform s; servers := servers s; timers := timers s;
     exchanges := exchanges s; prompts := v; children := children s;
     promises := promises s; crashed := crashed s; log := log s |}.

Definition with_children (v : nat) (s : State) : State :=
  {| oauth2Client := oauth2Client s; server := server s; timeoutId := timeoutId s;
     platform := platform s; servers := servers s; timers := timers s;
     exchanges := exchanges s; prompts := prompts s; children := v;
     promises := promises s; crashed := crashed s; log := log s |}.

Definition with_promises (v : list (option AuthResult)) (s : State) : State :=
  {| oauth2Client := oauth2Client s; server := server s; timeoutId := timeoutId s;
     platform := platform s; servers := servers s; timers := timers s;
     exchanges := exchanges s; prompts := prompts s; children := children s;
     promises := v; crashed := crashed s; log := log s |}.

Definition with_crashed (v : bool) (s : State) : State :=
  {| oauth2Client := oauth2Client s; server := server s; timeoutId := timeoutId s;
     platform := platform s; servers := servers s; timers := timers s;
     exchanges := exchanges s; prompts := prompts s; children := children s;
     promises := promises s; crashed := v; log := log s |}.

Definition with_log (v : list Effect) (s : State) : State :=
  {| oauth2Client := oauth2Client s; server := server s; timeoutId := timeoutId s;
     platform := platform s; servers := servers s; timers := timers s;
     exchanges := exchanges s; prompts := prompts s; children := children s;
     promises := promises s; crashed := crashed s; log := v |}.

(** ** The methods of [OAuthFlow] *)

Definition emit (e : Effect) (s : State) : State :=
  with_log (log s ++ [e]) s.

Definition disarm (tm : Timer) : Timer :=
  {| tm_armed := false; tm_attempt := tm_attempt tm |}.

(** [server.close()] as the runtime sees it. *)
Definition closed (sv : Server) : Server :=
  {| srv_phase := match srv_phase sv with
                  | Listening _ | Draining => Draining
                  | Binding | Dead => Dead
                  end;
     srv_attempt := srv_attempt sv |}.

(** [if (this.timeoutId) { clearTimeout(this.timeoutId); this.timeoutId = null; }] *)
Definition cancelTimer (s : State) : State :=
  match timeoutId s with
  | Some t =>
      with_timeoutId None
        (with_timers (alter disarm t (timers s)) (emit (EClearTimeout t) s))
  | None => s
  end.

(** [if (this.server) { this.server.close(); this.server = null; }] *)
Definition closeServer (s : State) : State :=
  match server s with
  | Some h =>
      with_server None
        (with_servers (alter closed h (servers s)) (emit (EServerClose h) s))
  | None => s
  end.

(** [private cleanup(): void] *)
Definition cleanup (s : State) : State :=
  closeServer (cancelTimer s).

(** Calling the [resolve] of attempt [a]'s promise: a promise settles
    once, later calls change nothing. *)
Definition resolve (a : nat) (r : AuthResult) (s : State) : State :=
  let s1 := emit (EResolve a r) s in
  match promises s !! a with
  | Some None => with_promises (<[a := Some r]> (promises s)) s1
  | _ => s1
  end.

(** [res.writeHead(status, ...); res.end(body)] *)
Definition respond (status : nat) (body : string) (s : State) : State :=
  emit (ERespond status body) s.

(** The call [this.oauth2Client.getToken(code)]; the caller is suspended
    until the exchange settles. *)
Definition getToken (code : qval) (w : Awaiter) (a : nat) (s : State) : State :=
  let k := length (exchanges s) in
  with_exchanges
    (exchanges s ++ [{| ex_pending := true; ex_awaiter := w; ex_attempt := a |}])
    (emit (EGetToken k code (_redirectUri (oauth2Client s))) s).

(** [query.k as string], read where [query.k] is truthy. *)
Definition queryValue (v : option qval) : qval :=
  match v with Some x => x | None => QStr EmptyString end.

(** [private async handleCallback(query, res, resolve)], up to the
    [await]. *)
Definition handleCallback (query : gmap string qval) (a : nat) (s : State) : State :=
  if truthy (query !! "error") then
    resolve a (failure (queryValue (query !! "error")))
      (cleanup
         (respond 200 "<html><body><h1>Authorization cancelled</h1></body></html>" s))
  else if negb (truthy (query !! "code")) then
    resolve a (failure (QStr "No authorization code"))
      (cleanup
         (respond 400 "<html><body><h1>No authorization code</h1></body></html>" s))
  else
    getToken (queryValue (query !! "code")) InHandleCallback a s.

(** [handleCallback] after the [await]: the rest of the [try], or the
    [catch]. *)
Definition handleCallback_resume (r : Exchanged) (a : nat) (s : State) : State :=
  match r with
  | Tokens rt =>
      resolve a (succeeded rt)
        (cleanup
           (respond 200
              "<html><body><h1>Success!</h1><p>You can close this window.</p></body></html>"
              s))
  | Throws m =>
      resolve a (failure (QStr m))
        (cleanup
           (respond 500
              ("<html><body><h1>Error</h1><p>" +:+ m +:+ "</p></body></html>") s))
  end.

(** The command [openBrowser] chooses for [process.platform]. *)
Definition browserCommand (pf : Platform) (url : string) : string * list string :=
  match pf with
  | Darwin => ("open", [url])
  | Win32 => ("cmd", ["/c"; "start"; EmptyString; url])
  | OtherPlatform => ("xdg-open", [url])
  end.

(** [private openBrowser(url: string): void]:
    [spawn(cmd, args, { detached: true, stdio: "ignore" }).unref()] *)
Definition openBrowser (url : string) (s : State) : State :=
  let cmd := browserCommand (platform s) url in
  with_children (S (children s))
    (emit (ESpawn (children s) (fst cmd) (snd cmd)) s).

(** The address the runtime reports for a server. *)
Definition addressPort (s : State) (h : nat) : N :=
  match servers s !! h with
  | Some {| srv_phase := Listening p |} => p
  | _ => 0%N
  end.

Definition withRedirectUri (uri : string) (s : State) : State :=
  with_oauth2Client
    {| _clientId := _clientId (oauth2Client s);
       _clientSecret := _clientSecret (oauth2Client s);
       _redirectUri := Some uri |} s.

(** [this.timeoutId = setTimeout(..., TIMEOUT_MS)] *)
Definition armTimer (a : nat) (s : State) : State :=
  let t := length (timers s) in
  with_timeoutId (Some t)
    (with_timers (timers s ++ [{| tm_armed := true; tm_attempt := a |}])
       (emit (ESetTimeout t TIMEOUT_MS) s)).

(** The callback given to [this.server.listen(0, "localhost", ...)]. *)
Definition onListening (a : nat) (s : State) : State :=
  match server s with
  | None => with_crashed true s   (* [this.server!.address()] on null *)
  | Some h =>
      let redirectUri := "http://localhost:" +:+ pretty (addressPort s h) in
      let authUrl := buildAuthUrl (_clientId (oauth2Client s)) redirectUri in
      armTimer a
        (openBrowser authUrl
           (emit (EConsoleLog authUrl)
              (emit (EConsoleLog "If browser doesn't open, visit this URL:")
                 (emit (EConsoleLog "Opening browser for authorization...")
                    (withRedirectUri redirectUri s)))))
  end.

(** The callback given to [setTimeout]. *)
Definition onTimeout (a : nat) (s : State) : State :=
  resolve a (failure (QStr "Authorization timed out"))
    (cleanup (emit (EConsoleLog "Authorization timed out after 2 minutes") s)).

(** [this.server.on("error", ...)] *)
Definition onServerError (message : string) (a : nat) (s : State) : State :=
  resolve a (failure (QStr message)) (cleanup s).

(** [parsed.pathname === "/"] *)
Definition isRoot (pathname : option string) : bool :=
  match pathname with
  | Some p => String.eqb p "/"
  | None => false
  end.

(** The request handler given to [http.createServer]. *)
Definition onRequest (pathname : option string) (query : gmap string qval)
    (a : nat) (s : State) : State :=
  if isRoot pathname then handleCallback query a s
  else respond 404 EmptyString s.

(** [private startAuthFlow()], up to the return of the promise. *)
Definition startAuthFlow (a : nat) (s : State) : State :=
  let h := length (servers s) in
  emit (EListen h)
    (with_server (Some h)
       (with_servers (servers s ++ [{| srv_phase := Binding; srv_attempt := a |}])
          (emit (ECreateServer h) s))).

(** [private async startManualFlow()], up to the return of the
    promise. *)
Definition startManualFlow (a : nat) (s : State) : State :=
  let redirectUri := "http://localhost:1" in
  let s := withRedirectUri redirectUri s in
  let authUrl := buildAuthUrl (_clientId (oauth2Client s)) redirectUri in
  let s := emit (EConsoleLog "Visit this URL to authorize:") s in
  let s := emit (EConsoleLog authUrl) s in
  let s := emit (EConsoleLog EmptyString) s in
  let s := emit (EConsoleLog
                   "After authorizing, you'll be redirected to a page that won't load.") s in
  let s := emit (EConsoleLog
                   "Copy the URL from your browser's address bar and paste it here.") s in
  let s := emit (EConsoleLog EmptyString) s in
  let p := length (prompts s) in
  with_prompts (prompts s ++ [{| pr_pending := true; pr_attempt := a |}])
    (emit (EQuestion p "Paste redirect URL: ") s).

(** The callback given to [rl.question], up to the [await]. *)
Definition onLine (p : nat) (input : Parsed) (a : nat) (s : State) : State :=
  let s := emit (ERlClose p) s in
  match input with
  | ParseThrows m => resolve a (failure (QStr m)) s
  | ParsedUrl _ query =>
      if negb (truthy (query !! "code")) then
        resolve a (failure (QStr "No authorization code found in URL")) s
      else getToken (queryValue (query !! "code")) InManualFlow a s
  end.

(** The same callback after the [await]. *)
Definition onLine_resume (r : Exchanged) (a : nat) (s : State) : State :=
  match r with
  | Tokens rt => resolve a (succeeded rt) s
  | Throws m => resolve a (failure (QStr m)) s
  end.

(** [async authorize(manual = false)] after
    [await this.start...Flow()]: the token returned ([inl]) or the
    message of the [Error] thrown ([inr]). *)
Definition authorizeReturn (result : AuthResult) : string + string :=
  if negb (success result) then
    inr (if truthy (error result) then jsString (queryValue (error result))
         else "Authorization failed")
  else
    match refreshToken result with
    | None | Some EmptyString => inr "No refresh token received"
    | Some token => inl token
    end.

(** ** The event loop *)

(** What can happen to an instance: a call of [authorize] by its owner,
    and the callbacks the runtime invokes.  [SpawnError] is the
    ['error'] event Node.js emits on the child process [spawn] returned
    when the command could not be started (ENOENT, EACCES); an
    ['error'] event that no listener handles is thrown, and the uncaught
    exception ends the process. *)
Inductive Event :=
| Authorize (manual : bool)
| SrvListening (h : nat) (port : N)
| SrvError (h : nat) (message : string)
| Request (h : nat) (pathname : option string) (query : gmap string qval)
| TimerFires (t : nat)
| Settles (k : nat) (r : Exchanged)
| Line (p : nat) (input : Parsed)
| SpawnError (child : nat).

Definition phaseOf (s : State) (h : nat) : option SrvPhase :=
  srv_phase <$> servers s !! h.

(** When the runtime can deliver an event: a server reports
    ['listening'] once, while binding; requests come from connections to
    a server that has listened; only an armed timer fires; an exchange
    settles once and a question is answered once; nothing runs after the
    process died. *)
Definition enabled (s : State) (e : Event) : bool :=
  negb (crashed s) &&
  match e with
  | Authorize _ => true
  | SrvListening h _ =>
      match phaseOf s h with Some Binding => true | _ => false end
  | SrvError h _ =>
      match phaseOf s h with Some Binding | Some (Listening _) => true | _ => false end
  | Request h _ _ =>
      match phaseOf s h with Some (Listening _) | Some Draining => true | _ => false end
  | TimerFires t =>
      match timers s !! t with Some tm => tm_armed tm | None => false end
  | Settles k _ =>
      match exchanges s !! k with Some ex => ex_pending ex | None => false end
  | Line p _ =>
      match prompts s !! p with Some pr => pr_pending pr | None => false end
  | SpawnError c => Nat.ltb c (children s)
  end.

Definition listening (port : N) (sv : Server) : Server :=
  {| srv_phase := Listening port; srv_attempt := srv_attempt sv |}.

Definition failed (sv : Server) : Server :=
  {| srv_phase := match srv_phase sv with Binding => Dead | ph => ph end;
     srv_attempt := srv_attempt sv |}.

Definition settled (ex : Exchange) : Exchange :=
  {| ex_pending := false; ex_awaiter := ex_awaiter ex; ex_attempt := ex_attempt ex |}.

Definition answered (pr : Prompt) : Prompt :=
  {| pr_pending := false; pr_attempt := pr_attempt pr |}.

(** The code that runs when the event is delivered. *)
Definition fire (s : State) (e : Event) : State :=
  match e with
  | Authorize manual =>
      let a := length (promises s) in
      let s := with_promises (promises s ++ [None]) s in
      if manual then startManualFlow a s else startAuthFlow a s
  | SrvListening h port =>
      match servers s !! h with
      | Some sv =>
          onListening (srv_attempt sv)
            (with_servers (alter (listening port) h (servers s)) s)
      | None => s
      end
  | SrvError h message =>
      match servers s !! h with
      | Some sv =>
          onServerError message (srv_attempt sv)
            (with_servers (alter failed h (servers s)) s)
      | None => s
      end
  | Request h pathname query =>
      match servers s !! h with
      | Some sv => onRequest pathname query (srv_attempt sv) s
      | None => s
      end
  | TimerFires t =>
      match timers s !! t with
      | Some tm =>
          onTimeout (tm_attempt tm) (with_timers (alter disarm t (timers s)) s)
      | None => s
      end
  | Settles k r =>
      match exchanges s !! k with
      | Some ex =>
          let s := with_exchanges (alter settled k (exchanges s)) s in
          match ex_awaiter ex with
          | InHandleCallback => handleCallback_resume r (ex_attempt ex) s
          | InManualFlow => onLine_resume r (ex_attempt ex) s
          end
      | None => s
      end
  | Line p input =>
      match prompts s !! p with
      | Some pr =>
          onLine p input (pr_attempt pr)
            (with_prompts (alter answered p (prompts s)) s)
      | None => s
      end
  | SpawnError _ =>
      (* no ['error'] listener on the child: the event is thrown *)
      with_crashed true s
  end.

Definition step (s : State) (e : Event) : State :=
  if enabled s e then fire s e else s.

Definition run (s : State) (evs : list Event) : State :=
  fold_left step evs s.

(** What the caller of attempt [a]'s [authorize()] has got: nothing yet
    ([None]), a token, or an [Error]. *)
Definition authorizeOutcome (s : State) (a : nat) : option (string + string) :=
  match promises s !! a with
  | Some (Some r) => Some (authorizeReturn r)
  | _ => None
  end.

Definition isAuthorize (e : Event) : bool :=
  match e with Authorize _ => true | _ => false end.

Definition isGetToken (e : Effect) : bool :=
  match e with EGetToken _ _ _ => true | _ => false end.

Definition isSetTimeout (e : Effect) : bool :=
  match e with ESetTimeout _ _ => true | _ => false end.

Definition isServerClose (e : Effect) : bool :=
  match e with EServerClose _ => true | _ => false end.

Definition isClearTimeout (e : Effect) : bool :=
  match e with EClearTimeout _ => true | _ => false end.

(** How often the code did something of a kind. *)
Definition count (f : Effect -> bool) (s : State) : nat :=
  length (List.filter f (log s)).

Definition isLine (e : Event) : bool :=
  match e with Line _ _ => true | _ => false end.

Definition isResolve (e : Effect) : bool :=
  match e with EResolve _ _ => true | _ => false end.

(** Sample query objects: [?code=c], [?error=access_denied] and
    [?error=&code=c]. *)
Definition codeQuery (c : string) : gmap string qval :=
  {[ "code" := QStr c ]}.

Definition deniedQuery : gmap string qval :=
  {[ "error" := QStr "access_denied" ]}.


(** ** The authorization URL as the specification describes it *)

(** What the specification means by a URL with query parameters is
    fixed by reading the URL back: the fragment is dropped, the query
    follows the first [?], its parameters are separated by [&], a
    parameter is [key=value], and [%XY] stands for the byte with the
    hexadecimal digits [X] and [Y]. *)

Definition hexValue (c : ascii) : option N :=
  let n := N_of_ascii c in
  if ((48 <=? n) && (n <=? 57))%N then Some (n - 48)%N
  else if ((65 <=? n) && (n <=? 70))%N then Some (n - 55)%N
  else if ((97 <=? n) && (n <=? 102))%N then Some (n - 87)%N
  else None.

Fixpoint percentDecode (s : string) : option string :=
  match s with
  | EmptyString => Some EmptyString
  | String c rest =>
      if Ascii.eqb c "%" then
        match rest with
        | String x (String y rest') =>
            match hexValue x, hexValue y, percentDecode rest' with
            | Some a, Some b, Some r => Some (String (ascii_of_N (16 * a + b)) r)
            | _, _, _ => None
            end
        | _ => None
        end
      else option_map (String c) (percentDecode rest)
  end.

(** [s] cut at the first [c]: what is before it and, if [c] occurs,
    what is after it. *)
Fixpoint cut (c : ascii) (s : string) : string * option string :=
  match s with
  | EmptyString => (EmptyString, None)
  | String x rest =>
      if Ascii.eqb x c then (EmptyString, Some rest)
      else (String x (fst (cut c rest)), snd (cut c rest))
  end.

(** [s] split at every [c]. *)
Fixpoint fields (c : ascii) (s : string) : list string :=
  match s with
  | EmptyString => [EmptyString]
  | String x rest =>
      if Ascii.eqb x c then EmptyString :: fields c rest
      else match fields c rest with
           | f :: fs => String x f :: fs
           | [] => [String x EmptyString]
           end
  end.

(** One parameter [key=value], both sides decoded. *)
Definition parseParam (f : string) : option (string * string) :=
  match percentDecode (fst (cut "=" f)),
        percentDecode (default EmptyString (snd (cut "=" f))) with
  | Some k, Some v => Some (k, v)
  | _, _ => None
  end.

(** A URL read back: what is before the query, and its parameters in
    their order. *)
Definition parseUrl (u : string) : option (string * list (string * string)) :=
  let u' := fst (cut "#" u) in
  match snd (cut "?" u') with
  | None => Some (fst (cut "?" u'), [])
  | Some q => option_map (pair (fst (cut "?" u'))) (mapM parseParam (fields "&" q))
  end.

(** Only characters [encodeURIComponent] leaves as they are. *)
Fixpoint allUnreserved (s : string) : bool :=
  match s with
  | EmptyString => true
  | String c rest => Uri.unreserved c && allUnreserved rest
  end.

(** The provider endpoint and the six parameters of the specification:
    the scope is the three permissions for mail, calendar and file
    storage, joined by spaces. *)
Definition specAuthorization (clientId redirectUri : string)
  : string * list (string * string) :=
  ("https://accounts.google.com/o/oauth2/v2/auth",
   [ ("client_id", clientId);
     ("redirect_uri", redirectUri);
     ("response_type", "code");
     ("scope",
      "https://mail.google.com/ https://www.googleapis.com/auth/calendar https://www.googleapis.com/auth/drive");
     ("access_type", "offline");
     ("prompt", "consent") ]).

(** ** Invariants of one automated attempt *)

(** The effects of [cleanup] are in the log: the listener of the attempt
    was closed, and every timer that was set was cleared. *)

Definition cleanedUp (l : list Effect) : Prop :=
  EServerClose 0 ∈ l /\ forall t ms, ESetTimeout t ms ∈ l -> EClearTimeout t ∈ l.

(** Every call of a [resolve] comes after the cleanup. *)
Definition deliveredClean (l : list Effect) : Prop :=
  forall pre a r post, l = (pre ++ EResolve a r :: post)%list -> cleanedUp pre.

(** The listener no longer accepts connections. *)
Definition shut (s : State) : Prop :=
  phaseOf s 0 = Some Draining \/ phaseOf s 0 = Some Dead.

(** What holds throughout an instance's only attempt when it is an
    automated one. *)
Record AutoInv (s : State) : Prop := {
  ai_servers : length (servers s) = 1;
  ai_handle : forall h, server s = Some h -> h = 0;
  ai_closed : server s = None -> EServerClose 0 ∈ log s /\ shut s;
  ai_timer : forall t ms, ESetTimeout t ms ∈ log s ->
             EClearTimeout t ∈ log s \/ timeoutId s = Some t;
  ai_binding : phaseOf s 0 = Some Binding ->
               timeoutId s = None /\ timers s = [] /\
               forall t ms, ESetTimeout t ms ∉ log s;
  ai_armed : forall t tm, timers s !! t = Some tm -> tm_armed tm = true ->
             timeoutId s = Some t;
  ai_prompts : prompts s = [];
  ai_awaiters : forall k ex, exchanges s !! k = Some ex ->
                ex_awaiter ex = InHandleCallback;
  ai_resolved : forall a r, promises s !! a = Some (Some r) ->
                server s = None /\ timeoutId s = None;
  ai_delivered : deliveredClean (log s)
}.

(** ** After the cleanup *)

(** Both handles are null and no server is still binding. *)
Definition released (s : State) : Prop :=
  server s = None /\ timeoutId s = None /\ forall h, phaseOf s h <> Some Binding.

(** No [close()] and no [clearTimeout()] happened between two states. *)
Definition sameCleanups (s s' : State) : Prop :=
  count isServerClose s' = count isServerClose s
  /\ count isClearTimeout s' = count isClearTimeout s.

(** ** Invariant of one manual attempt *)

(** The instance has no listener, no timer and no child process. *)
Definition manualOnly (s : State) : Prop :=
  server s = None /\ timeoutId s = None /\ servers s = [] /\ timers s = []
  /\ children s = 0 /\ count isSetTimeout s = 0.

(** ** The pending attempt *)

(** Every server, timer and exchange belongs to the instance's only
    attempt. *)
Definition attemptZero (s : State) : Prop :=
  length (promises s) = 1
  /\ Forall (fun sv => srv_attempt sv = 0) (servers s)
  /\ Forall (fun tm => tm_attempt tm = 0) (timers s)
  /\ Forall (fun ex => ex_attempt ex = 0) (exchanges s).

(** While the attempt is unresolved nothing was cleaned up: the
    listener is binding, or listening with the timer set. *)
Definition pendingOk (s : State) : Prop :=
  promises s !! 0 = Some None ->
  server s = Some 0
  /\ count isServerClose s = 0 /\ count isClearTimeout s = 0
  /\ (phaseOf s 0 = Some Binding
      \/ (exists p, phaseOf s 0 = Some (Listening p)) /\ is_Some (timeoutId s)).

(** * Further definitions *)

Definition isSpawn (e : Effect) : bool :=
  match e with ESpawn _ _ _ => true | _ => false end.

(** A request to a path other than [/]. *)
Definition isStray (e : Event) : bool :=
  match e with Request _ pathname _ => negb (isRoot pathname) | _ => false end.

(** The [AuthResult] the flows build from a settled exchange. *)
Definition exchangeResult (r : Exchanged) : AuthResult :=
  match r with
  | Tokens rt => succeeded rt
  | Throws m => failure (QStr m)
  end.

(** What [authorize()] reports for it. *)
Definition exchangeOutcome (r : Exchanged) : string + string :=
  match r with
  | Tokens (Some (String c token)) => inl (String c token)
  | Tokens _ => inr "No refresh token received"
  | Throws (String c m) => inr (String c m)
  | Throws EmptyString => inr "Authorization failed"
  end.

(** The page [handleCallback] answers a settled exchange with. *)
Definition exchangePage (r : Exchanged) : Effect :=
  match r with
  | Tokens _ =>
      ERespond 200
        "<html><body><h1>Success!</h1><p>You can close this window.</p></body></html>"
  | Throws m =>
      ERespond 500 ("<html><body><h1>Error</h1><p>" +:+ m +:+ "</p></body></html>")
  end.

(** While the listener is binding no exchange has been started. *)
Definition bindingQuiet (s : State) : Prop :=
  phaseOf s 0 = Some Binding -> exchanges s = [].

(** [result.error || "Authorization failed"] for a message. *)
Definition orAuthorizationFailed (m : string) : string :=
  match m with
  | EmptyString => "Authorization failed"
  | _ => m
  end.

(** The redirect URI of an automated attempt listening on [port]. *)
Definition loopback (port : N) : string := "http://localhost:" +:+ pretty port.

(** What [startAuthFlow] does before it returns its promise. *)
Definition startLog : list Effect := [ECreateServer 0; EListen 0].

(** What the ['listening'] callback does: three lines on the console,
    the browser, the timer. *)
Definition announcement (clientId : string) (pf : Platform) (port : N) : list Effect :=
  let url := buildAuthUrl clientId (loopback port) in
  [ EConsoleLog "Opening browser for authorization...";
    EConsoleLog "If browser doesn't open, visit this URL:";
    EConsoleLog url;
    ESpawn 0 (fst (browserCommand pf url)) (snd (browserCommand pf url));
    ESetTimeout 0 TIMEOUT_MS ].

(** What the callbacks of an automated attempt do after that: answer
    requests, exchange codes with the redirect URI [ru], report the
    timeout, clean up and resolve. *)
Definition afterAnnouncement (ru : option string) (x : Effect) : Prop :=
  match x with
  | EGetToken _ _ ru' => ru' = ru
  | ERespond _ _ | EClearTimeout _ | EServerClose _ | EResolve _ _ => True
  | EConsoleLog line => line = "Authorization timed out after 2 minutes"
  | _ => False
  end.

(** [s'] continues [s]: same client, and a longer log. *)
Definition continues (P : Effect -> Prop) (s s' : State) : Prop :=
  oauth2Client s' = oauth2Client s /\ platform s' = platform s
  /\ exists es, log s' = (log s ++ es)%list /\ Forall P es.

(** The three shapes of an automated attempt that has received [evs]:
    still binding, failed to bind, or announced on the port the
    runtime reported. *)
Definition attemptShape (clientId : string) (pf : Platform) (evs : list Event)
    (s : State) : Prop :=
  _clientId (oauth2Client s) = clientId /\ platform s = pf
  /\ ((phaseOf s 0 = Some Binding /\ _redirectUri (oauth2Client s) = None
       /\ log s = startLog /\ exchanges s = [] /\ children s = 0)
      \/ (phaseOf s 0 = Some Dead /\ _redirectUri (oauth2Client s) = None
          /\ (exists a r, log s = (startLog ++ [EServerClose 0; EResolve a r])%list)
          /\ timers s = [] /\ exchanges s = [] /\ children s = 0)
      \/ (exists port rest,
             SrvListening 0 port ∈ evs
             /\ phaseOf s 0 <> Some Binding
             /\ _redirectUri (oauth2Client s) = Some (loopback port)
             /\ log s = (startLog ++ announcement clientId pf port ++ rest)%list
             /\ Forall (afterAnnouncement (Some (loopback port))) rest)).

(** ** The command line *)

(** [s.includes(c)] for a search string of one character. *)
Fixpoint includes (c : ascii) (s : string) : bool :=
  match s with
  | EmptyString => false
  | String x rest => Ascii.eqb x c || includes c rest
  end.

(** What [accountStorage] answers to [hasAccount(email)] and to
    [getCredentials()] ([null], or the client id and secret). *)
Record AccountStorage := {
  hasAccount : string -> bool;
  getCredentials : option (string * string)
}.

(** What the command line does itself: [console.error], [console.log],
    [process.exit] and [accountStorage.addAccount]. *)
Inductive Cli :=
| CError (line : string)
| CLog (line : string)
| CExit (code : nat)
| CAddAccount (email clientId clientSecret refreshToken : string).

(** How an [async] handler ends: it returned or left the process after
    these effects, it threw an [Error], it still awaits, or the process
    died of an uncaught event meanwhile. *)
Inductive Ended :=
| Done (effects : list Cli)
| Threw (message : string)
| Awaiting
| Killed.

(** The branch [action === "add"] of [handleAccounts(args)]; [evs] is
    what the runtime delivers to the flow it starts. *)
Definition handleAccounts_add (st : AccountStorage) (pf : Platform)
    (args : list string) (evs : list Event) : Ended :=
  let manual := existsb (String.eqb "--manual") args in
  match args !! 1 with
  | None | Some EmptyString => Done [CError "Error: Missing email address"; CExit 1]
  | Some email =>
      if hasAccount st email then
        Done [CError ("Error: Account '" +:+ email +:+ "' already exists"); CExit 1]
      else
        match getCredentials st with
        | None =>
            Done [CError "Error: No credentials configured. Run: nbn accounts credentials <file.json>";
                  CExit 1]
        | Some (clientId, clientSecret) =>
            let s := run (newOAuthFlow clientId clientSecret pf) (Authorize manual :: evs) in
            match authorizeOutcome s 0 with
            | Some (inl refreshToken) =>
                Done [CAddAccount email clientId clientSecret refreshToken;
                      CLog ("Account '" +:+ email +:+ "' added")]
            | Some (inr message) => Threw message
            | None => if crashed s then Killed else Awaiting
            end
        end
  end.

(** Where [main] ends: in effects of its own, in [usage()], in another
    action of [handleAccounts], or in the handler of a service. *)
Inductive Ran :=
| Effects (es : list Cli)
| CallsUsage
| CallsAccounts (args : list string)
| CallsService (service email : string) (args : list string)
| Dies.

Definition services : list string := ["mail"; "cal"; "drive"; "sheets"; "photos"].

(** [async function main()], with [args = process.argv.slice(2)]. *)
Definition main (st : AccountStorage) (pf : Platform) (args : list string)
    (evs : list Event) : Ran :=
  match args with
  | [] => CallsUsage
  | a0 :: rest =>
      if String.eqb a0 "--help" || String.eqb a0 "-h" then CallsUsage
      else if String.eqb a0 "accounts" then
        match rest !! 0 with
        | Some action =>
            if String.eqb action "add" then
              match handleAccounts_add st pf rest evs with
              | Done es => Effects es
              | Threw message => Effects [CError ("Error: " +:+ message); CExit 1]
              | Awaiting => Effects []
              | Killed => Dies
              end
            else CallsAccounts rest
        | None => CallsAccounts rest
        end
      else
        let email := a0 in
        if negb (includes "@" email) then
          Effects [CError ("Error: Invalid email address: " +:+ email); CExit 1]
        else if negb (hasAccount st email) then
          Effects [CError ("Error: Account '" +:+ email +:+ "' not found. Run: nbn accounts add "
                           +:+ email); CExit 1]
        else
          match rest !! 0 with
          | Some service =>
              if existsb (String.eqb service) services then
                CallsService service email (drop 1 rest)
              else
                Effects [CError ("Error: Unknown service: " +:+ service
                                 +:+ ". Use: mail, cal, drive, sheets, or photos"); CExit 1]
          | None =>
              Effects [CError "Error: Unknown service: undefined. Use: mail, cal, drive, sheets, or photos";
                       CExit 1]
          end
  end.

(** ** Drive: what [download] exports, and where to *)


(** The names [table[key]] finds on [Object.prototype] when the table
    has no own property of that name. *)
Definition inherited : list string :=
  ["constructor"; "hasOwnProperty"; "isPrototypeOf"; "propertyIsEnumerable";
   "toLocaleString"; "toString"; "valueOf"; "__proto__";
   "__defineGetter__"; "__defineSetter__"; "__lookupGetter__"; "__lookupSetter__"].

Definition exports : list (string * string) :=
  [ ("application/vnd.google-apps.document", "application/pdf");
    ("application/vnd.google-apps.spreadsheet", "text/csv");
    ("application/vnd.google-apps.presentation", "application/pdf");
    ("application/vnd.google-apps.drawing", "image/png") ].




(** [[^.]*] up to the end of the input. *)
Fixpoint noDot (s : string) : bool :=
  match s with
  | EmptyString => true
  | String c rest => negb (Ascii.eqb c ".") && noDot rest
  end.

(** [filePath.replace(/\.[^.]+$/, EmptyString)]: the leftmost place where
    a dot is followed by one or more characters other than a dot, up to
    the end of the input, is where the result ends. *)
Fixpoint replaceExtension (filePath : string) : string :=
  match filePath with
  | EmptyString => EmptyString
  | String c rest =>
      if Ascii.eqb c "." && negb (String.eqb rest EmptyString) && noDot rest
      then EmptyString
      else String c (replaceExtension rest)
  end.

(** [file.mimeType?.startsWith("application/vnd.google-apps.")] *)
Definition isGoogleDoc (mimeType : option string) : bool :=
  match mimeType with
  | Some t => String.prefix "application/vnd.google-apps." t
  | None => false
  end.


(** * Properties *)

Lemma string_app_assoc (a b c : string) : (a +:+ b) +:+ c = a +:+ b +:+ c.
Proof.
  induction a as [|x a IH]; [reflexivity |].
  change (String x ((a +:+ b) +:+ c) = String x (a +:+ b +:+ c)).
  now rewrite IH.
Qed.



(** ** Runs *)

Lemma run_app (s : State) (evs evs' : list Event) :
  run s (evs ++ evs') = run (run s evs) evs'.
Proof. apply fold_left_app. Qed.

Lemma run_cons (s : State) (e : Event) (evs : list Event) :
  run s (e :: evs) = run (step s e) evs.
Proof. reflexivity. Qed.

(** Events the runtime cannot deliver leave the state as it is. *)
Lemma run_disabled (s : State) (evs : list Event) :
  Forall (fun e => enabled s e = false) evs -> run s evs = s.
Proof.
  induction 1 as [|e evs He _ IH]; [reflexivity |].
  rewrite run_cons. unfold step. now rewrite He.
Qed.

Lemma crashed_disabled (s : State) (e : Event) :
  crashed s = true -> enabled s e = false.
Proof. intros H. unfold enabled. now rewrite H. Qed.

Lemma run_crashed (s : State) (evs : list Event) :
  crashed s = true -> run s evs = s.
Proof.
  intros H. apply run_disabled, Forall_forall. intros e _.
  now apply crashed_disabled.
Qed.

(** Symbolic evaluation of a run, one event at a time: the state is
    normalised, the strings inside it are left as they are. *)
Ltac run_state :=
  cbv -[run pretty buildAuthUrl String.append handleCallback onLine
        authorizeOutcome count elem_of].

Ltac run_event := rewrite run_cons; unfold step; run_state.

Ltac run_done := unfold run; cbn [fold_left].

Ltac run_events := repeat run_event; run_done.

Ltac evaluate := cbv -[pretty buildAuthUrl String.append elem_of].

(** ** The URL *)

Example scopeStr_value :
  scopeStr = "https%3A%2F%2Fmail.google.com%2F%20https%3A%2F%2Fwww.googleapis.com%2Fauth%2Fcalendar%20https%3A%2F%2Fwww.googleapis.com%2Fauth%2Fdrive".
Proof. reflexivity. Qed.

Example encode_loopback :
  Uri.encodeURIComponent "http://localhost:1" = "http%3A%2F%2Flocalhost%3A1".
Proof. reflexivity. Qed.

Lemma percent_safe (c : ascii) (rest : string) :
  Uri.allSafe (Uri.percent c +:+ rest) = Uri.allSafe rest.
Proof.
  destruct c as [b0 b1 b2 b3 b4 b5 b6 b7].
  destruct b0, b1, b2, b3, b4, b5, b6, b7; reflexivity.
Qed.

(** An encoded component holds no separator of the query string. *)
Lemma encode_allSafe (s : string) :
  Uri.allSafe (Uri.encodeURIComponent s) = true.
Proof.
  induction s as [|c s IH]; [reflexivity |].
  cbn [Uri.encodeURIComponent].
  destruct (Uri.unreserved c) eqn:Hc.
  - change (Uri.safe c && Uri.allSafe (Uri.encodeURIComponent s) = true).
    unfold Uri.safe. now rewrite Hc, IH.
  - now rewrite percent_safe.
Qed.

Example separators_not_safe :
  Uri.safe "&" = false /\ Uri.safe "=" = false /\ Uri.safe "#" = false
  /\ Uri.safe " " = false /\ Uri.safe "?" = false /\ Uri.safe "/" = false
  /\ Uri.safe ":" = false.
Proof. repeat split. Qed.

Lemma percent_app (c : ascii) (rest : string) :
  Uri.percent c +:+ rest
  = String "%" (String (Uri.hexDigit (N_of_ascii c / 16))
                  (String (Uri.hexDigit (N_of_ascii c mod 16)) rest)).
Proof. reflexivity. Qed.

Lemma percentDecode_escape (x y : ascii) (rest : string) :
  percentDecode (String "%" (String x (String y rest)))
  = match hexValue x, hexValue y, percentDecode rest with
    | Some a, Some b, Some r => Some (String (ascii_of_N (16 * a + b)) r)
    | _, _, _ => None
    end.
Proof. reflexivity. Qed.

(** The two digits [encodeURIComponent] writes for a byte are read
    back as that byte. *)
Lemma hex_roundtrip (c : ascii) :
  hexValue (Uri.hexDigit (N_of_ascii c / 16)) = Some (N_of_ascii c / 16)%N
  /\ hexValue (Uri.hexDigit (N_of_ascii c mod 16)) = Some (N_of_ascii c mod 16)%N
  /\ ascii_of_N (16 * (N_of_ascii c / 16) + N_of_ascii c mod 16) = c.
Proof.
  destruct c as [b0 b1 b2 b3 b4 b5 b6 b7].
  destruct b0, b1, b2, b3, b4, b5, b6, b7; vm_compute; repeat split.
Qed.

Lemma decode_percent (c : ascii) (rest : string) :
  percentDecode (Uri.percent c +:+ rest) = option_map (String c) (percentDecode rest).
Proof.
  rewrite percent_app, percentDecode_escape.
  destruct (hex_roundtrip c) as (-> & -> & ->).
  now destruct (percentDecode rest).
Qed.

Lemma percentDecode_plain (c : ascii) (rest : string) :
  Ascii.eqb c "%" = false ->
  percentDecode (String c rest) = option_map (String c) (percentDecode rest).
Proof. intros H. cbn [percentDecode]. now rewrite H. Qed.

Lemma unreserved_plain (c : ascii) : Uri.unreserved c = true -> Ascii.eqb c "%" = false.
Proof.
  intros H. destruct (Ascii.eqb_spec c "%") as [-> |]; [discriminate | reflexivity].
Qed.

(** Decoding undoes [encodeURIComponent]. *)
Lemma decode_encode (s : string) :
  percentDecode (Uri.encodeURIComponent s) = Some s.
Proof.
  induction s as [|c s IH]; [reflexivity |].
  cbn [Uri.encodeURIComponent]. destruct (Uri.unreserved c) eqn:Hc.
  - change (String c EmptyString +:+ Uri.encodeURIComponent s)
      with (String c (Uri.encodeURIComponent s)).
    rewrite (percentDecode_plain _ _ (unreserved_plain c Hc)), IH. reflexivity.
  - rewrite decode_percent, IH. reflexivity.
Qed.

Lemma decode_unreserved (s : string) :
  allUnreserved s = true -> percentDecode s = Some s.
Proof.
  induction s as [|c s IH]; [reflexivity |]. cbn [allUnreserved].
  intros [Hc Hs]%andb_true_iff.
  rewrite (percentDecode_plain _ _ (unreserved_plain c Hc)), (IH Hs). reflexivity.
Qed.

Lemma unreserved_allSafe (s : string) :
  allUnreserved s = true -> Uri.allSafe s = true.
Proof.
  induction s as [|c s IH]; [reflexivity |]. cbn [allUnreserved Uri.allSafe].
  intros [Hc Hs]%andb_true_iff. unfold Uri.safe. now rewrite Hc, (IH Hs).
Qed.

(** ** Cutting and splitting *)

Lemma includes_app (c : ascii) (a b : string) :
  includes c (a +:+ b) = includes c a || includes c b.
Proof.
  induction a as [|x a IH]; [reflexivity |].
  change (String x a +:+ b) with (String x (a +:+ b)). cbn [includes].
  now rewrite IH, orb_assoc.
Qed.

Lemma allSafe_includes (c : ascii) (s : string) :
  Uri.safe c = false -> Uri.allSafe s = true -> includes c s = false.
Proof.
  intros Hc. induction s as [|x s IH]; [reflexivity |]. cbn [Uri.allSafe includes].
  intros [Hx Hs]%andb_true_iff. rewrite (IH Hs), orb_false_r.
  destruct (Ascii.eqb_spec x c) as [-> |]; [congruence | reflexivity].
Qed.

Lemma cut_app (c : ascii) (a b : string) :
  includes c a = false ->
  cut c (a +:+ String c b) = (a, Some b).
Proof.
  induction a as [|x a IH]; cbn [includes].
  - intros _. change (EmptyString +:+ String c b) with (String c b).
    cbn [cut]. now rewrite Ascii.eqb_refl.
  - intros [Hx Ha]%orb_false_iff.
    change (String x a +:+ String c b) with (String x (a +:+ String c b)).
    cbn [cut]. now rewrite Hx, (IH Ha).
Qed.

Lemma cut_none (c : ascii) (a : string) :
  includes c a = false -> cut c a = (a, None).
Proof.
  induction a as [|x a IH]; cbn [includes]; [reflexivity |].
  intros [Hx Ha]%orb_false_iff. cbn [cut]. now rewrite Hx, (IH Ha).
Qed.

Lemma fields_last (c : ascii) (a : string) :
  includes c a = false -> fields c a = [a].
Proof.
  induction a as [|x a IH]; cbn [includes]; [reflexivity |].
  intros [Hx Ha]%orb_false_iff. cbn [fields]. now rewrite Hx, (IH Ha).
Qed.

Lemma fields_app (c : ascii) (a b : string) :
  includes c a = false ->
  fields c (a +:+ String c b) = a :: fields c b.
Proof.
  induction a as [|x a IH]; cbn [includes].
  - intros _. change (EmptyString +:+ String c b) with (String c b).
    cbn [fields]. now rewrite Ascii.eqb_refl.
  - intros [Hx Ha]%orb_false_iff.
    change (String x a +:+ String c b) with (String x (a +:+ String c b)).
    cbn [fields]. now rewrite Hx, (IH Ha).
Qed.

Lemma parseParam_pair (k v k' v' : string) :
  includes "=" k = false ->
  percentDecode k = Some k' -> percentDecode v = Some v' ->
  parseParam (k +:+ String "=" v) = Some (k', v').
Proof.
  intros Hk Hdk Hdv. unfold parseParam. rewrite (cut_app _ _ _ Hk). cbn [fst snd].
  change (default EmptyString (Some v)) with v. now rewrite Hdk, Hdv.
Qed.

(** The template literal, parameter by parameter. *)
Lemma buildAuthUrl_params (clientId redirectUri : string) :
  buildAuthUrl clientId redirectUri
  = "https://accounts.google.com/o/oauth2/v2/auth"
    +:+ String "?" (("client_id" +:+ String "=" clientId)
    +:+ String "&" (("redirect_uri" +:+ String "=" (Uri.encodeURIComponent redirectUri))
    +:+ String "&" (("response_type" +:+ String "=" "code")
    +:+ String "&" (("scope" +:+ String "=" scopeStr)
    +:+ String "&" (("access_type" +:+ String "=" "offline")
    +:+ String "&" ("prompt" +:+ String "=" "consent")))))).
Proof.
  unfold buildAuthUrl.
  rewrite !string_app_assoc. reflexivity.
Qed.

Lemma includes_cons (c x : ascii) (s : string) :
  includes c (String x s) = Ascii.eqb x c || includes c s.
Proof. reflexivity. Qed.

(** Reading back the URL the template literal builds. *)
Lemma parse_buildAuthUrl (clientId redirectUri : string) :
  includes "#" clientId = false -> includes "&" clientId = false ->
  percentDecode clientId = Some clientId ->
  parseUrl (buildAuthUrl clientId redirectUri)
  = Some (specAuthorization clientId redirectUri).
Proof.
  intros Hh Ha Hd.
  pose proof (encode_allSafe redirectUri) as Hsafe.
  pose proof (allSafe_includes "#" _ eq_refl Hsafe) as Hrh.
  pose proof (allSafe_includes "&" _ eq_refl Hsafe) as Hra.
  assert (Hsh : includes "#" scopeStr = false) by reflexivity.
  assert (Hsa : includes "&" scopeStr = false) by reflexivity.
  rewrite buildAuthUrl_params. unfold parseUrl.
  rewrite (cut_none "#").
  2:{ repeat (rewrite includes_app || rewrite includes_cons).
      rewrite Hh, Hrh, Hsh. reflexivity. }
  cbn [fst]. rewrite cut_app by reflexivity. cbn [fst snd].
  rewrite fields_app
    by (repeat (rewrite includes_app || rewrite includes_cons); rewrite Ha; reflexivity).
  rewrite fields_app
    by (repeat (rewrite includes_app || rewrite includes_cons); rewrite Hra; reflexivity).
  rewrite fields_app by reflexivity.
  rewrite fields_app
    by (repeat (rewrite includes_app || rewrite includes_cons); rewrite Hsa; reflexivity).
  rewrite fields_app by reflexivity.
  rewrite fields_last by reflexivity.
  cbn [mapM].
  rewrite (parseParam_pair "client_id" clientId "client_id" clientId eq_refl eq_refl Hd).
  rewrite (parseParam_pair "redirect_uri" _ "redirect_uri" redirectUri eq_refl eq_refl
             (decode_encode redirectUri)).
  rewrite (parseParam_pair "response_type" "code" "response_type" "code"
             eq_refl eq_refl eq_refl).
  rewrite (parseParam_pair "scope" scopeStr "scope"
             "https://mail.google.com/ https://www.googleapis.com/auth/calendar https://www.googleapis.com/auth/drive"
             eq_refl eq_refl eq_refl).
  rewrite (parseParam_pair "access_type" "offline" "access_type" "offline"
             eq_refl eq_refl eq_refl).
  rewrite (parseParam_pair "prompt" "consent" "prompt" "consent"
             eq_refl eq_refl eq_refl).
  reflexivity.
Qed.

(** C4: for every client identifier made of characters that need no
    encoding and every redirect URI, the URL both flows build reads
    back as the provider endpoint with exactly the parameters
    client_id, redirect_uri, response_type=code, scope (the three fixed
    permissions for mail, calendar and file storage, joined by
    spaces), access_type=offline and prompt=consent, in this order;
    the redirect URI is percent-encoded in it, and so is each
    permission, with [%20] between them.  It is the URL an automated
    attempt prints for the loopback address of its port, and the one a
    manual attempt prints for its fixed address. *)
Theorem C4_authorization_url (clientId redirectUri : string) :
  allUnreserved clientId = true ->
  parseUrl (buildAuthUrl clientId redirectUri)
  = Some (specAuthorization clientId redirectUri)
  /\ (exists encoded,
         buildAuthUrl clientId redirectUri
         = "https://accounts.google.com/o/oauth2/v2/auth?client_id=" +:+ clientId
           +:+ "&redirect_uri=" +:+ encoded
           +:+ "&response_type=code&scope=https%3A%2F%2Fmail.google.com%2F%20https%3A%2F%2Fwww.googleapis.com%2Fauth%2Fcalendar%20https%3A%2F%2Fwww.googleapis.com%2Fauth%2Fdrive&access_type=offline&prompt=consent"
         /\ Uri.allSafe encoded = true
         /\ percentDecode encoded = Some redirectUri)
  /\ (forall secret pf port,
        EConsoleLog (buildAuthUrl clientId ("http://localhost:" +:+ pretty port))
        ∈ log (run (newOAuthFlow clientId secret pf)
                 [Authorize false; SrvListening 0 port]))
  /\ (forall secret pf,
        EConsoleLog (buildAuthUrl clientId "http://localhost:1")
        ∈ log (run (newOAuthFlow clientId secret pf) [Authorize true])).
Proof.
  intros Hcid. pose proof (unreserved_allSafe _ Hcid) as Hsafe.
  split; [| split; [| split]].
  - apply parse_buildAuthUrl.
    + now apply (allSafe_includes "#").
    + now apply (allSafe_includes "&").
    + now apply decode_unreserved.
  - exists (Uri.encodeURIComponent redirectUri).
    split; [| split; [apply encode_allSafe | apply decode_encode]].
    reflexivity.
  - intros secret pf port. run_events. cbn [log]. set_solver.
  - intros secret pf. run_events. cbn [log]. set_solver.
Qed.

Lemma C4_witness :
  parseUrl (buildAuthUrl "1234-abc.apps.googleusercontent.com" "http://localhost:4242")
  = Some (specAuthorization "1234-abc.apps.googleusercontent.com" "http://localhost:4242").
Proof.
  apply (C4_authorization_url "1234-abc.apps.googleusercontent.com"
           "http://localhost:4242").
  reflexivity.
Defined.

(** The client identifier is interpolated as it is: with [&] in it the
    URL has a seventh parameter and another client_id, with [#] in it
    the URL has one parameter only. *)
Lemma C4_counterexample :
  parseUrl (buildAuthUrl "id&prompt=none" "http://localhost:1")
  = Some ("https://accounts.google.com/o/oauth2/v2/auth",
          [ ("client_id", "id"); ("prompt", "none");
            ("redirect_uri", "http://localhost:1"); ("response_type", "code");
            ("scope",
             "https://mail.google.com/ https://www.googleapis.com/auth/calendar https://www.googleapis.com/auth/drive");
            ("access_type", "offline"); ("prompt", "consent") ])
  /\ parseUrl (buildAuthUrl "id#" "http://localhost:1")
     = Some ("https://accounts.google.com/o/oauth2/v2/auth", [("client_id", "id")])
  /\ parseUrl (buildAuthUrl "id&prompt=none" "http://localhost:1")
     <> Some (specAuthorization "id&prompt=none" "http://localhost:1").
Proof. repeat split; try discriminate; vm_compute; reflexivity. Qed.

(** ** Single runs of an attempt *)

Lemma handleCallback_code (q : gmap string qval) (a : nat) (s : State) :
  truthy (q !! "error") = false -> truthy (q !! "code") = true ->
  handleCallback q a s = getToken (queryValue (q !! "code")) InHandleCallback a s.
Proof. intros He Hc. unfold handleCallback. now rewrite He, Hc. Qed.


Lemma onLine_code (p : nat) (path : option string) (q : gmap string qval)
    (a : nat) (s : State) :
  truthy (q !! "code") = true ->
  onLine p (ParsedUrl path q) a s
  = getToken (queryValue (q !! "code")) InManualFlow a (emit (ERlClose p) s).
Proof. intros Hc. unfold onLine. now rewrite Hc. Qed.

Lemma onLine_nocode (p : nat) (path : option string) (q : gmap string qval)
    (a : nat) (s : State) :
  truthy (q !! "code") = false ->
  onLine p (ParsedUrl path q) a s
  = resolve a (failure (QStr "No authorization code found in URL"))
      (emit (ERlClose p) s).
Proof. intros Hc. unfold onLine. now rewrite Hc. Qed.


(** ** Once settled, a promise keeps its value *)

Lemma promises_cancelTimer s : promises (cancelTimer s) = promises s.
Proof. unfold cancelTimer. now destruct (timeoutId s). Qed.

Lemma promises_closeServer s : promises (closeServer s) = promises s.
Proof. unfold closeServer. now destruct (server s). Qed.

Lemma promises_cleanup s : promises (cleanup s) = promises s.
Proof. unfold cleanup. now rewrite promises_closeServer, promises_cancelTimer. Qed.

Lemma resolve_keeps a r b x s :
  promises s !! b = Some (Some x) -> promises (resolve a r s) !! b = Some (Some x).
Proof.
  intros H. unfold resolve.
  destruct (promises s !! a) as [[y|]|] eqn:Ha; cbn; try assumption.
  destruct (decide (a = b)) as [->|Hne]; [congruence |].
  now rewrite list_lookup_insert_ne.
Qed.

Lemma handleCallback_keeps q a b x s :
  promises s !! b = Some (Some x) ->
  promises (handleCallback q a s) !! b = Some (Some x).
Proof.
  intros H. unfold handleCallback.
  destruct (truthy (q !! "error")); [| destruct (negb (truthy (q !! "code")))];
    try (apply resolve_keeps; rewrite promises_cleanup); exact H.
Qed.

Lemma fire_keeps s e b x :
  promises s !! b = Some (Some x) -> promises (fire s e) !! b = Some (Some x).
Proof.
  intros H. destruct e; cbn [fire].
  - assert (Hb : ((promises s ++ [None])%list : list (option AuthResult)) !! b = Some (Some x)).
    { rewrite lookup_app_l; [exact H |]. eapply lookup_lt_Some; eauto. }
    destruct manual; exact Hb.
  - destruct (servers s !! h); [| exact H]. unfold onListening. cbn.
    destruct (server s); exact H.
  - destruct (servers s !! h); [| exact H]. unfold onServerError.
    apply resolve_keeps. now rewrite promises_cleanup.
  - destruct (servers s !! h); [| exact H]. unfold onRequest.
    destruct (isRoot pathname); [now apply handleCallback_keeps | exact H].
  - destruct (timers s !! t); [| exact H]. unfold onTimeout.
    apply resolve_keeps. now rewrite promises_cleanup.
  - destruct (exchanges s !! k) as [ex|]; [| exact H].
    destruct (ex_awaiter ex), r; cbn -[resolve cleanup];
      apply resolve_keeps; rewrite ?promises_cleanup; exact H.
  - destruct (prompts s !! p); [| exact H]. unfold onLine.
    destruct input as [path q | m]; [destruct (negb (truthy (q !! "code")))|];
      try apply resolve_keeps; exact H.
  - exact H.
Qed.

Lemma step_keeps s e b x :
  promises s !! b = Some (Some x) -> promises (step s e) !! b = Some (Some x).
Proof.
  intros H. unfold step. destruct (enabled s e); [now apply fire_keeps | exact H].
Qed.

Lemma run_keeps evs s b x :
  promises s !! b = Some (Some x) -> promises (run s evs) !! b = Some (Some x).
Proof.
  revert s. induction evs as [|e evs IH]; intros s H; [exact H |].
  rewrite run_cons. apply IH. now apply step_keeps.
Qed.

(** ** One automated attempt *)

Lemma deliveredClean_snoc (l : list Effect) (e : Effect) :
  deliveredClean l ->
  (isResolve e = true -> cleanedUp l) ->
  deliveredClean (l ++ [e]).
Proof.
  intros Hl He pre a r post Heq.
  destruct post as [|x post _] using rev_ind.
  - apply app_inj_tail in Heq as [-> ->]. now apply He.
  - rewrite app_comm_cons, app_assoc in Heq.
    apply app_inj_tail in Heq as [-> _]. eapply Hl; eauto.
Qed.

Lemma phaseOf_alter (f : Server -> Server) (h h' : nat) (s : State) :
  phaseOf (with_servers (alter f h (servers s)) s) h'
  = if decide (h = h') then srv_phase <$> (f <$> servers s !! h')
    else phaseOf s h'.
Proof.
  unfold phaseOf. cbn. destruct (decide (h = h')) as [->|Hne].
  - now rewrite list_lookup_alter_eq.
  - now rewrite list_lookup_alter_ne.
Qed.

Lemma elem_of_snoc {A} (l : list A) (x y : A) : x ∈ (l ++ [y])%list <-> x ∈ l \/ x = y.
Proof. rewrite elem_of_app, list_elem_of_singleton. reflexivity. Qed.

Lemma inv_emit (e : Effect) (s : State) :
  isResolve e = false -> isSetTimeout e = false ->
  AutoInv s -> AutoInv (emit e s).
Proof.
  intros Hr Ht [I1 I2 I3 I4 I5 I6 I7 I8 I9 I10].
  split; cbn.
  - assumption.
  - assumption.
  - intros Hs. destruct (I3 Hs). split; [| assumption].
    apply elem_of_snoc. now left.
  - intros t ms [Hin | <-]%elem_of_snoc; [| discriminate Ht].
    destruct (I4 _ _ Hin); [left; apply elem_of_snoc; now left | now right].
  - intros Hb. destruct (I5 Hb) as (Hid & Htm & Hno). do 2 (split; [assumption |]).
    intros t ms [Hin | <-]%elem_of_snoc; [| discriminate Ht].
    now apply (Hno t ms).
  - assumption.
  - assumption.
  - assumption.
  - assumption.
  - apply deliveredClean_snoc; [assumption | congruence].
Qed.

Lemma inv_cancelTimer (s : State) : AutoInv s -> AutoInv (cancelTimer s).
Proof.
  intros H. unfold cancelTimer.
  destruct (timeoutId s) as [t0|] eqn:Ht0; [| exact H].
  destruct H as [I1 I2 I3 I4 I5 I6 I7 I8 I9 I10].
  assert (Hb : phaseOf s 0 <> Some Binding).
  { intros Hb. destruct (I5 Hb) as [? _]. congruence. }
  split; cbn.
  - assumption.
  - assumption.
  - intros Hs. destruct (I3 Hs). split; [| assumption].
    apply elem_of_snoc. now left.
  - intros t ms [Hin | [=]]%elem_of_snoc. left. apply elem_of_snoc.
    destruct (I4 _ _ Hin) as [? | Heq]; [now left | right].
    rewrite Ht0 in Heq. now injection Heq as ->.
  - intros Hb'. contradiction.
  - intros t tm Hl Ha.
    destruct (decide (t0 = t)) as [->|Hne].
    + rewrite list_lookup_alter_eq in Hl. destruct (timers s !! t); [|discriminate].
      injection Hl as <-. discriminate.
    + rewrite list_lookup_alter_ne in Hl by assumption.
      specialize (I6 _ _ Hl Ha). congruence.
  - assumption.
  - assumption.
  - intros a r Hp. destruct (I9 _ _ Hp). congruence.
  - apply deliveredClean_snoc; [assumption | discriminate].
Qed.

Lemma shut_closed (s : State) (sv : Server) :
  servers s !! 0 = Some sv ->
  shut (with_server None (with_servers (alter closed 0 (servers s))
                            (emit (EServerClose 0) s))).
Proof.
  intros Hsv. unfold shut, phaseOf. cbn. rewrite list_lookup_alter_eq, Hsv. cbn.
  destruct (srv_phase sv); auto.
Qed.

Lemma inv_closeServer (s : State) : AutoInv s -> AutoInv (closeServer s).
Proof.
  intros H. unfold closeServer.
  destruct (server s) as [h|] eqn:Hs; [| exact H].
  destruct H as [I1 I2 I3 I4 I5 I6 I7 I8 I9 I10].
  rewrite (I2 h Hs) in *.
  destruct (servers s !! 0) as [sv|] eqn:Hsv.
  2: { apply lookup_ge_None in Hsv. lia. }
  split; cbn.
  - now rewrite length_alter.
  - discriminate.
  - intros _. split; [apply elem_of_snoc; now right |].
    eapply shut_closed; eauto.
  - intros t ms [Hin | [=]]%elem_of_snoc.
    destruct (I4 _ _ Hin); [left; apply elem_of_snoc; now left | now right].
  - unfold phaseOf. cbn. rewrite list_lookup_alter_eq, Hsv. cbn.
    destruct (srv_phase sv); discriminate.
  - assumption.
  - assumption.
  - assumption.
  - intros a r Hp. destruct (I9 _ _ Hp). congruence.
  - apply deliveredClean_snoc; [assumption | discriminate].
Qed.

Lemma inv_cleanup (s : State) : AutoInv s -> AutoInv (cleanup s).
Proof. intros H. unfold cleanup. now apply inv_closeServer, inv_cancelTimer. Qed.

Lemma timeoutId_cancelTimer s : timeoutId (cancelTimer s) = None.
Proof. unfold cancelTimer. now destruct (timeoutId s) eqn:E. Qed.

Lemma timeoutId_closeServer s : timeoutId (closeServer s) = timeoutId s.
Proof. unfold closeServer. now destruct (server s). Qed.

Lemma server_closeServer s : server (closeServer s) = None.
Proof. unfold closeServer. now destruct (server s) eqn:E. Qed.

Lemma released_cleanup (s : State) :
  server (cleanup s) = None /\ timeoutId (cleanup s) = None.
Proof.
  unfold cleanup. split; [apply server_closeServer |].
  rewrite timeoutId_closeServer. apply timeoutId_cancelTimer.
Qed.

Lemma inv_resolve (a : nat) (r : AuthResult) (s : State) :
  server s = None -> timeoutId s = None ->
  AutoInv s -> AutoInv (resolve a r s).
Proof.
  intros Hs Ht [I1 I2 I3 I4 I5 I6 I7 I8 I9 I10].
  assert (Hc : cleanedUp (log s)).
  { split; [apply (I3 Hs) |]. intros t ms Hin.
    destruct (I4 _ _ Hin); [assumption | congruence]. }
  assert (AutoInv (emit (EResolve a r) s)) as [J1 J2 J3 J4 J5 J6 J7 J8 J9 J10].
  { split; cbn; try assumption.
    - intros _. destruct (I3 Hs). split; [apply elem_of_snoc; now left | assumption].
    - intros t ms [Hin | [=]]%elem_of_snoc. left. apply elem_of_snoc. left.
      destruct Hc as [_ Hc]. eapply Hc; eauto.
    - intros Hb. destruct (I3 Hs) as [_ [Hd | Hd]];
        unfold phaseOf in *; cbn in *; congruence.
    - apply deliveredClean_snoc; auto. }
  unfold resolve. destruct (promises s !! a) as [[x|]|] eqn:Hp;
    try (split; assumption).
  split; cbn; try assumption. now intros.
Qed.

Lemma inv_resolve_cleanup (a : nat) (r : AuthResult) (s : State) :
  AutoInv s -> AutoInv (resolve a r (cleanup s)).
Proof.
  intros H. destruct (released_cleanup s).
  apply inv_resolve; [assumption .. |]. now apply inv_cleanup.
Qed.

Lemma inv_failed (h : nat) (s : State) :
  AutoInv s -> AutoInv (with_servers (alter failed h (servers s)) s).
Proof.
  intros [I1 I2 I3 I4 I5 I6 I7 I8 I9 I10].
  assert (Hph : forall ph, ph <> Binding ->
            phaseOf s 0 = Some ph ->
            phaseOf (with_servers (alter failed h (servers s)) s) 0 = Some ph).
  { intros ph Hne Hph. rewrite phaseOf_alter. destruct (decide (h = 0)); [| assumption].
    unfold phaseOf in Hph. destruct (servers s !! 0) as [sv|]; [| discriminate].
    cbn in *. injection Hph as Hph. rewrite Hph. now destruct ph. }
  split; cbn; try assumption.
  - now rewrite length_alter.
  - intros Hs. destruct (I3 Hs) as [Hin [Hd | Hd]]; (split; [assumption |]).
    + left. now apply Hph.
    + right. now apply Hph.
  - intros Hb. apply I5. rewrite phaseOf_alter in Hb.
    destruct (decide (h = 0)); [| assumption].
    destruct (servers s !! 0) as [sv|] eqn:Hsv; [| discriminate].
    cbn in Hb. destruct (srv_phase sv); discriminate.
Qed.

Lemma inv_disarm (t : nat) (s : State) :
  AutoInv s -> AutoInv (with_timers (alter disarm t (timers s)) s).
Proof.
  intros [I1 I2 I3 I4 I5 I6 I7 I8 I9 I10].
  split; cbn; try assumption.
  - intros Hb. destruct (I5 Hb) as (? & -> & ?). auto.
  - intros t' tm Hl Ha. destruct (decide (t = t')) as [->|Hne].
    + rewrite list_lookup_alter_eq in Hl. destruct (timers s !! t'); [| discriminate].
      injection Hl as <-. discriminate.
    + rewrite list_lookup_alter_ne in Hl by assumption. eauto.
Qed.

Lemma inv_settled (k : nat) (s : State) :
  AutoInv s -> AutoInv (with_exchanges (alter settled k (exchanges s)) s).
Proof.
  intros [I1 I2 I3 I4 I5 I6 I7 I8 I9 I10].
  split; cbn; try assumption.
  intros k' ex Hl. destruct (decide (k = k')) as [->|Hne].
  - rewrite list_lookup_alter_eq in Hl.
    destruct (exchanges s !! k') as [ex'|] eqn:Hex; [| discriminate].
    injection Hl as <-. cbn. eauto.
  - rewrite list_lookup_alter_ne in Hl by assumption. eauto.
Qed.

Lemma inv_getToken (code : qval) (a : nat) (s : State) :
  AutoInv s -> AutoInv (getToken code InHandleCallback a s).
Proof.
  intros H.
  apply (inv_emit (EGetToken (length (exchanges s)) code
                     (_redirectUri (oauth2Client s)))) in H; [| reflexivity ..].
  destruct H as [I1 I2 I3 I4 I5 I6 I7 I8 I9 I10].
  unfold getToken. split; cbn; try assumption.
  intros k ex [Hl | [_ Hl]]%lookup_app_Some; [eauto |].
  apply list_lookup_singleton_Some in Hl as [_ <-]. reflexivity.
Qed.

Lemma inv_handleCallback (q : gmap string qval) (a : nat) (s : State) :
  AutoInv s -> AutoInv (handleCallback q a s).
Proof.
  intros H. unfold handleCallback.
  destruct (truthy (q !! "error")); [| destruct (negb (truthy (q !! "code")))].
  - now apply inv_resolve_cleanup, inv_emit.
  - now apply inv_resolve_cleanup, inv_emit.
  - now apply inv_getToken.
Qed.

Lemma inv_handleCallback_resume (r : Exchanged) (a : nat) (s : State) :
  AutoInv s -> AutoInv (handleCallback_resume r a s).
Proof.
  intros H. destruct r; cbn [handleCallback_resume];
    now apply inv_resolve_cleanup, inv_emit.
Qed.

Lemma binding_handle (s : State) (h : nat) :
  length (servers s) = 1 -> is_Some (phaseOf s h) -> h = 0.
Proof.
  intros Hlen [ph Hph]. unfold phaseOf in Hph.
  destruct (servers s !! h) eqn:Hl; [| discriminate].
  apply lookup_lt_Some in Hl. lia.
Qed.

Lemma inv_listening (port : N) (a : nat) (s : State) :
  AutoInv s -> phaseOf s 0 = Some Binding ->
  AutoInv (onListening a (with_servers (alter (listening port) 0 (servers s)) s)).
Proof.
  intros [I1 I2 I3 I4 I5 I6 I7 I8 I9 I10] Hb.
  destruct (I5 Hb) as (Hid & Htm & Hno).
  assert (Hs : server s = Some 0).
  { destruct (server s) as [h|] eqn:Hs; [now rewrite (I2 h) |].
    destruct (I3 eq_refl) as [_ [Hd | Hd]]; congruence. }
  assert (Hph : exists ph, ph <> Binding /\
            phaseOf (with_servers (alter (listening port) 0 (servers s)) s) 0
            = Some ph /\ ph = Listening port).
  { rewrite phaseOf_alter. cbn. unfold phaseOf in Hb.
    destruct (servers s !! 0); [| discriminate]. cbn.
    exists (Listening port). repeat split. discriminate. }
  destruct Hph as (ph & Hne & Hph & ->).
  unfold onListening. cbn [server with_servers]. rewrite Hs.
  unfold armTimer, openBrowser. split; cbn.
  - now rewrite length_alter.
  - assumption.
  - congruence.
  - intros t ms Hin. right.
    repeat (apply elem_of_snoc in Hin as [Hin | Hin]); try discriminate.
    + now apply Hno in Hin.
    + injection Hin as -> _. now rewrite Htm.
  - intros Hb'. unfold phaseOf in Hph, Hb'. cbn in Hph, Hb'. congruence.
  - intros t tm Hl Ha. rewrite Htm in *. cbn in *. destruct t; [reflexivity | discriminate].
  - assumption.
  - assumption.
  - intros a' r Hp. destruct (I9 _ _ Hp). congruence.
  - repeat (apply deliveredClean_snoc; [| discriminate]). assumption.
Qed.

Lemma fire_inv (s : State) (e : Event) :
  AutoInv s -> enabled s e = true -> isAuthorize e = false ->
  AutoInv (fire s e).
Proof.
  intros H Hen Hna. unfold enabled in Hen. apply andb_true_iff in Hen as [_ Hen].
  destruct e; cbn [fire]; try discriminate.
  - assert (h = 0) as ->.
    { apply (binding_handle s); [apply H |]. destruct (phaseOf s h); [eauto | discriminate]. }
    assert (Hb : phaseOf s 0 = Some Binding).
    { destruct (phaseOf s 0) as [[]|]; congruence. }
    destruct (servers s !! 0); [| assumption]. now apply inv_listening.
  - destruct (servers s !! h); [| assumption].
    unfold onServerError. now apply inv_resolve_cleanup, inv_failed.
  - destruct (servers s !! h); [| assumption]. unfold onRequest.
    destruct (isRoot pathname); [now apply inv_handleCallback | now apply inv_emit].
  - destruct (timers s !! t); [| assumption]. unfold onTimeout.
    now apply inv_resolve_cleanup, inv_emit, inv_disarm.
  - destruct (exchanges s !! k) as [ex|] eqn:Hex; [| assumption].
    rewrite (ai_awaiters s H k ex Hex).
    now apply inv_handleCallback_resume, inv_settled.
  - rewrite (ai_prompts s H) in Hen. discriminate.
  - destruct H. now split.
Qed.

Lemma step_inv (s : State) (e : Event) :
  AutoInv s -> isAuthorize e = false -> AutoInv (step s e).
Proof.
  intros H Hna. unfold step. destruct (enabled s e) eqn:Hen; [| assumption].
  now apply fire_inv.
Qed.

Lemma run_inv (evs : list Event) (s : State) :
  AutoInv s -> Forall (fun e => isAuthorize e = false) evs -> AutoInv (run s evs).
Proof.
  intros H Hall. revert s H.
  induction Hall as [|e evs He _ IH]; intros s H; [assumption |].
  rewrite run_cons. apply IH. now apply step_inv.
Qed.

Lemma no_timeout_at_start (t : nat) (ms : N) :
  ESetTimeout t ms ∉ [ECreateServer 0; EListen 0].
Proof.
  intros Hin. repeat (apply elem_of_cons in Hin as [Hin | Hin]; [discriminate |]).
  now apply elem_of_nil in Hin.
Qed.

Lemma inv_start (clientId secret : string) (pf : Platform) :
  AutoInv (step (newOAuthFlow clientId secret pf) (Authorize false)).
Proof.
  split; cbn.
  - reflexivity.
  - now intros h [= <-].
  - discriminate.
  - intros t ms Hin. now apply no_timeout_at_start in Hin.
  - intros _. do 2 (split; [reflexivity |]). apply no_timeout_at_start.
  - intros t tm Hl. now rewrite lookup_nil in Hl.
  - reflexivity.
  - intros k ex Hl. now rewrite lookup_nil in Hl.
  - intros [|[|a]] r; discriminate.
  - intros pre a r post Heq.
    destruct pre as [|x [|y [|z pre]]]; discriminate.
Qed.

(** C3: in the only attempt of an instance ([authorize()] is called
    once, in automated mode) every call of [resolve], whatever the
    outcome it delivers (success, error callback, missing code, failed
    exchange, bind failure, timeout), comes after the listener was
    closed and every timer that had been set was cleared; and once the
    result is delivered both handles are null, the listener accepts no
    connection and no timer is armed. *)
Theorem C3_cleanup_before_result
    (clientId secret : string) (pf : Platform) (evs : list Event) :
  Forall (fun e => isAuthorize e = false) evs ->
  let s := run (newOAuthFlow clientId secret pf) (Authorize false :: evs) in
  (forall pre a r post,
      log s = (pre ++ EResolve a r :: post)%list ->
      EServerClose 0 ∈ pre
      /\ forall t ms, ESetTimeout t ms ∈ pre -> EClearTimeout t ∈ pre)
  /\ (forall r,
        promises s !! 0 = Some (Some r) ->
        server s = None /\ timeoutId s = None
        /\ (phaseOf s 0 = Some Draining \/ phaseOf s 0 = Some Dead)
        /\ forall t tm, timers s !! t = Some tm -> tm_armed tm = false).
Proof.
  intros Hall s.
  assert (H : AutoInv s).
  { subst s. rewrite run_cons. apply run_inv; [apply inv_start | assumption]. }
  split; [apply (ai_delivered s H) |].
  intros r Hp. destruct (ai_resolved s H _ _ Hp) as [Hs Ht].
  repeat split; try assumption.
  - apply (ai_closed s H Hs).
  - intros t tm Hl. destruct (tm_armed tm) eqn:Ha; [| reflexivity].
    pose proof (ai_armed s H _ _ Hl Ha). congruence.
Qed.

Lemma C3_witness :
  let s := run (newOAuthFlow "id" "secret" OtherPlatform)
             [Authorize false; SrvListening 0 4242; TimerFires 0] in
  promises s !! 0 = Some (Some (failure (QStr "Authorization timed out")))
  /\ server s = None /\ timeoutId s = None
  /\ (phaseOf s 0 = Some Draining \/ phaseOf s 0 = Some Dead).
Proof.
  intros s.
  assert (Hp : promises s !! 0
               = Some (Some (failure (QStr "Authorization timed out"))))
    by (vm_compute; reflexivity).
  split; [exact Hp |].
  destruct (C3_cleanup_before_result "id" "secret" OtherPlatform
              [SrvListening 0 4242; TimerFires 0]) as [_ H].
  - repeat constructor.
  - destruct (H _ Hp) as (H1 & H2 & H3 & _). auto.
Defined.

(** After a second [authorize()] the handles of the instance are those
    of the second attempt: the error callback of the first attempt
    delivers its result while its listener is listening and its timer
    armed; what was closed and cleared belongs to the second. *)
Lemma C3_counterexample :
  let s := run (newOAuthFlow "id" "secret" OtherPlatform)
             [Authorize false; SrvListening 0 4242;
              Authorize false; SrvListening 1 4243;
              Request 0 (Some "/") deniedQuery] in
  authorizeOutcome s 0 = Some (inr "access_denied")
  /\ phaseOf s 0 = Some (Listening 4242)
  /\ tm_armed <$> timers s !! 0 = Some true
  /\ (EServerClose 0 ∉ log s) /\ (EClearTimeout 0 ∉ log s)
  /\ EServerClose 1 ∈ log s /\ EClearTimeout 1 ∈ log s
  /\ authorizeOutcome s 1 = None.
Proof.
  intros s.
  let l := eval vm_compute in (log s) in
  assert (Hlog : log s = l) by (vm_compute; reflexivity).
  repeat apply conj; try (vm_compute; reflexivity).
  - rewrite Hlog. intros H.
    repeat (apply elem_of_cons in H as [H | H]; [discriminate |]).
    now apply elem_of_nil in H.
  - rewrite Hlog. intros H.
    repeat (apply elem_of_cons in H as [H | H]; [discriminate |]).
    now apply elem_of_nil in H.
  - rewrite Hlog. repeat constructor.
  - rewrite Hlog. repeat constructor.
Qed.

(** The six terminal outcomes of an automated attempt, as
    [authorize()] reports them. *)
Example terminal_outcomes :
  let outcome evs :=
    authorizeOutcome
      (run (newOAuthFlow "id" "secret" OtherPlatform)
         (Authorize false :: evs)) 0 in
  let code := Request 0 (Some "/") (codeQuery "4/0AbC") in
  outcome [SrvListening 0 4242; code; Settles 0 (Tokens (Some "1//rt"))]
  = Some (inl "1//rt")
  /\ outcome [SrvListening 0 4242; Request 0 (Some "/") deniedQuery]
     = Some (inr "access_denied")
  /\ outcome [SrvListening 0 4242; Request 0 (Some "/") ∅]
     = Some (inr "No authorization code")
  /\ outcome [SrvListening 0 4242; code; Settles 0 (Throws "invalid_grant")]
     = Some (inr "invalid_grant")
  /\ outcome [SrvError 0 "listen EADDRNOTAVAIL"]
     = Some (inr "listen EADDRNOTAVAIL")
  /\ outcome [SrvListening 0 4242; TimerFires 0]
     = Some (inr "Authorization timed out").
Proof. vm_compute. repeat split. Qed.

(** ** After the cleanup *)

Lemma cancelTimer_idle (s : State) : timeoutId s = None -> cancelTimer s = s.
Proof. intros H. unfold cancelTimer. now rewrite H. Qed.

Lemma closeServer_idle (s : State) : server s = None -> closeServer s = s.
Proof. intros H. unfold closeServer. now rewrite H. Qed.

(** Calling the cleanup a second time does nothing. *)
Lemma cleanup_idle (s : State) :
  server s = None -> timeoutId s = None -> cleanup s = s.
Proof.
  intros Hs Ht. unfold cleanup. rewrite (cancelTimer_idle s Ht).
  now apply closeServer_idle.
Qed.

Lemma cleanup_twice (s : State) : cleanup (cleanup s) = cleanup s.
Proof. destruct (released_cleanup s). now apply cleanup_idle. Qed.

Ltac count_solve :=
  unfold count; cbn; rewrite ?List.filter_app, ?List.length_app; cbn; lia.

Lemma released_resolve (a : nat) (r : AuthResult) (s : State) :
  released s -> released (resolve a r s) /\ sameCleanups s (resolve a r s).
Proof.
  intros H. unfold resolve.
  destruct (promises s !! a) as [[x|]|]; (split; [exact H | split; count_solve]).
Qed.

Lemma released_emit (e : Effect) (s : State) :
  isServerClose e = false -> isClearTimeout e = false ->
  released s -> released (emit e s) /\ sameCleanups s (emit e s).
Proof.
  intros H1 H2 H. split; [exact H |].
  split; unfold count; cbn; rewrite List.filter_app, List.length_app; cbn;
    rewrite ?H1, ?H2; cbn; lia.
Qed.

Lemma sameCleanups_trans (s1 s2 s3 : State) :
  sameCleanups s1 s2 -> sameCleanups s2 s3 -> sameCleanups s1 s3.
Proof. intros [] []. split; congruence. Qed.

Lemma released_resolve_cleanup (e : Effect) (a : nat) (r : AuthResult) (s : State) :
  isServerClose e = false -> isClearTimeout e = false ->
  released s ->
  released (resolve a r (cleanup (emit e s)))
  /\ sameCleanups s (resolve a r (cleanup (emit e s))).
Proof.
  intros H1 H2 H. destruct (released_emit e s H1 H2 H) as [He Hc].
  destruct He as (Hs & Ht & Hb). rewrite cleanup_idle by assumption.
  destruct (released_resolve a r (emit e s)) as [Hr Hc']; [now repeat split |].
  split; [assumption | eapply sameCleanups_trans; eauto].
Qed.

Lemma released_getToken (code : qval) (w : Awaiter) (a : nat) (s : State) :
  released s -> released (getToken code w a s) /\ sameCleanups s (getToken code w a s).
Proof. intros H. split; [exact H | split; count_solve]. Qed.

Lemma released_fire (s : State) (e : Event) :
  released s -> enabled s e = true -> isAuthorize e = false ->
  released (fire s e) /\ sameCleanups s (fire s e).
Proof.
  intros H Hen Hna. pose proof H as (Hs & Ht & Hb).
  unfold enabled in Hen. apply andb_true_iff in Hen as [_ Hen].
  destruct e; cbn [fire]; try discriminate.
  - specialize (Hb h). destruct (phaseOf s h) as [[]|]; congruence.
  - destruct (servers s !! h) as [sv|] eqn:Hsv; [| now repeat split].
    unfold onServerError.
    assert (Hf : released (with_servers (alter failed h (servers s)) s)).
    { repeat split; try assumption. intros h'. rewrite phaseOf_alter.
      destruct (decide (h = h')) as [<-|]; [| apply Hb].
      rewrite Hsv. cbn. specialize (Hb h). unfold phaseOf in Hb. rewrite Hsv in Hb.
      cbn in Hb. destruct (srv_phase sv); congruence. }
    destruct Hf as (Hs' & Ht' & Hb'). rewrite cleanup_idle by assumption.
    destruct (released_resolve (srv_attempt sv) (failure (QStr message))
                (with_servers (alter failed h (servers s)) s)) as [Hr Hc];
      [now repeat split |].
    split; [assumption | exact Hc].
  - destruct (servers s !! h) as [sv|]; [| now repeat split]. unfold onRequest.
    destruct (isRoot pathname); [| now apply released_emit].
    unfold handleCallback.
    destruct (truthy (query !! "error")); [| destruct (negb (truthy (query !! "code")))].
    + now apply released_resolve_cleanup.
    + now apply released_resolve_cleanup.
    + now apply released_getToken.
  - destruct (timers s !! t) as [tm|]; [| now repeat split]. unfold onTimeout.
    apply (released_resolve_cleanup _ _ _ (with_timers (alter disarm t (timers s)) s));
      [reflexivity .. | exact H].
  - destruct (exchanges s !! k) as [ex|]; [| now repeat split].
    destruct (ex_awaiter ex), r; cbn [handleCallback_resume onLine_resume].
    + apply (released_resolve_cleanup _ _ _
               (with_exchanges (alter settled k (exchanges s)) s));
        [reflexivity .. | exact H].
    + apply (released_resolve_cleanup _ _ _
               (with_exchanges (alter settled k (exchanges s)) s));
        [reflexivity .. | exact H].
    + apply (released_resolve _ _ (with_exchanges (alter settled k (exchanges s)) s)).
      exact H.
    + apply (released_resolve _ _ (with_exchanges (alter settled k (exchanges s)) s)).
      exact H.
  - destruct (prompts s !! p) as [pr|]; [| now repeat split]. unfold onLine.
    set (s1 := with_prompts (alter answered p (prompts s)) s).
    assert (H1 : released s1) by exact H.
    destruct (released_emit (ERlClose p) s1) as [He Hc]; [reflexivity .. | exact H1 |].
    destruct input as [path q | m]; [destruct (negb (truthy (q !! "code")))|].
    + destruct (released_resolve (pr_attempt pr)
                  (failure (QStr "No authorization code found in URL")) _ He).
      split; [assumption | eapply sameCleanups_trans; eauto].
    + destruct (released_getToken (queryValue (q !! "code")) InManualFlow
                  (pr_attempt pr) _ He).
      split; [assumption | eapply sameCleanups_trans; eauto].
    + destruct (released_resolve (pr_attempt pr) (failure (QStr m)) _ He).
      split; [assumption | eapply sameCleanups_trans; eauto].
  - split; [exact H | split; reflexivity].
Qed.

Lemma released_step (s : State) (e : Event) :
  released s -> isAuthorize e = false ->
  released (step s e) /\ sameCleanups s (step s e).
Proof.
  intros H Hna. unfold step. destruct (enabled s e) eqn:Hen.
  - now apply released_fire.
  - split; [exact H | split; reflexivity].
Qed.

Lemma released_run (evs : list Event) (s : State) :
  released s -> Forall (fun e => isAuthorize e = false) evs ->
  released (run s evs) /\ sameCleanups s (run s evs).
Proof.
  intros H Hall. revert s H.
  induction Hall as [|e evs He _ IH]; intros s H.
  - split; [exact H | split; reflexivity].
  - rewrite run_cons. destruct (released_step s e H He) as [Hr Hc].
    destruct (IH _ Hr) as [Hr' Hc'].
    split; [assumption | eapply sameCleanups_trans; eauto].
Qed.


(** ** The pending attempt *)

Lemma count_emit (f : Effect -> bool) (e : Effect) (s : State) :
  f e = false -> count f (emit e s) = count f s.
Proof.
  intros H. unfold count. cbn. rewrite List.filter_app, List.length_app. cbn.
  rewrite H. cbn. lia.
Qed.

Lemma attemptZero_emit (e : Effect) (s : State) :
  attemptZero s -> attemptZero (emit e s).
Proof. intros H. exact H. Qed.

Lemma attemptZero_cancelTimer (s : State) :
  attemptZero s -> attemptZero (cancelTimer s).
Proof.
  intros H. unfold cancelTimer. destruct (timeoutId s); [| exact H].
  destruct H as (H1 & H2 & H3 & H4). repeat split; try assumption.
  apply Forall_alter; [assumption |]. now intros [].
Qed.

Lemma attemptZero_closeServer (s : State) :
  attemptZero s -> attemptZero (closeServer s).
Proof.
  intros H. unfold closeServer. destruct (server s); [| exact H].
  destruct H as (H1 & H2 & H3 & H4). repeat split; try assumption.
  apply Forall_alter; [assumption |]. now intros [].
Qed.

Lemma attemptZero_cleanup (s : State) :
  attemptZero s -> attemptZero (cleanup s).
Proof.
  intros H. now apply attemptZero_closeServer, attemptZero_cancelTimer.
Qed.

Lemma attemptZero_resolve (a : nat) (r : AuthResult) (s : State) :
  attemptZero s -> attemptZero (resolve a r s).
Proof.
  intros H. unfold resolve. destruct (promises s !! a) as [[x|]|]; try exact H.
  destruct H as (H1 & H2 & H3 & H4). repeat split; try assumption.
  cbn. now rewrite length_insert.
Qed.

Lemma attemptZero_getToken (code : qval) (w : Awaiter) (s : State) :
  attemptZero s -> attemptZero (getToken code w 0 s).
Proof.
  intros (H1 & H2 & H3 & H4). repeat split; try assumption.
  cbn. apply Forall_app. split; [assumption |]. now repeat constructor.
Qed.

Lemma attemptZero_handleCallback (q : gmap string qval) (s : State) :
  attemptZero s -> attemptZero (handleCallback q 0 s).
Proof.
  intros H. unfold handleCallback.
  destruct (truthy (q !! "error")); [| destruct (negb (truthy (q !! "code")))].
  - now apply attemptZero_resolve, attemptZero_cleanup.
  - now apply attemptZero_resolve, attemptZero_cleanup.
  - now apply attemptZero_getToken.
Qed.

Lemma attemptZero_fire (s : State) (e : Event) :
  attemptZero s -> prompts s = [] -> isAuthorize e = false ->
  attemptZero (fire s e).
Proof.
  intros H Hpr Hna. pose proof H as (H1 & H2 & H3 & H4).
  destruct e as [m | h port | h msg | h path q | t | k r | p input | c];
    try discriminate; cbn [fire].
  - destruct (servers s !! h) as [sv|] eqn:Hsv; [| exact H].
    rewrite (proj1 (Forall_lookup _ _) H2 _ _ Hsv).
    assert (H' : attemptZero (with_servers (alter (listening port) h (servers s)) s)).
    { repeat split; cbn; try assumption.
      apply Forall_alter; [assumption |]. now intros []. }
    unfold onListening. cbn [server with_servers].
    destruct (server s); [| exact H'].
    destruct H' as (H1' & H2' & H3' & H4').
    repeat split; cbn; try assumption.
    apply Forall_app. split; [assumption |]. now repeat constructor.
  - destruct (servers s !! h) as [sv|] eqn:Hsv; [| exact H].
    unfold onServerError. apply attemptZero_resolve, attemptZero_cleanup.
    repeat split; cbn; try assumption.
    apply Forall_alter; [assumption |]. now intros [].
  - destruct (servers s !! h) as [sv|] eqn:Hsv; [| exact H].
    rewrite (proj1 (Forall_lookup _ _) H2 _ _ Hsv). unfold onRequest.
    destruct (isRoot path); [now apply attemptZero_handleCallback | exact H].
  - destruct (timers s !! t) as [tm|] eqn:Htm; [| exact H].
    unfold onTimeout. apply attemptZero_resolve, attemptZero_cleanup.
    repeat split; cbn; try assumption.
    apply Forall_alter; [assumption |]. now intros [].
  - destruct (exchanges s !! k) as [ex|] eqn:Hex; [| exact H].
    assert (H' : attemptZero (with_exchanges (alter settled k (exchanges s)) s)).
    { repeat split; cbn; try assumption.
      apply Forall_alter; [assumption |]. now intros []. }
    destruct (ex_awaiter ex), r; cbn [handleCallback_resume onLine_resume];
      try apply attemptZero_resolve; try apply attemptZero_cleanup; exact H'.
  - rewrite Hpr. now rewrite lookup_nil.
  - exact H.
Qed.

Lemma resolve_settles (r : AuthResult) (s : State) :
  length (promises s) = 1 -> promises (resolve 0 r s) !! 0 <> Some None.
Proof.
  intros Hlen. unfold resolve.
  destruct (promises s) as [|[x|] [|]] eqn:Hp; try discriminate; cbn;
    rewrite Hp; cbn; discriminate.
Qed.

Lemma pendingOk_resolve_cleanup (r : AuthResult) (s : State) :
  length (promises s) = 1 -> pendingOk (resolve 0 r (cleanup s)).
Proof.
  intros Hlen Hp. exfalso. revert Hp. apply resolve_settles.
  now rewrite promises_cleanup.
Qed.

Lemma pendingOk_emit (e : Effect) (s : State) :
  isServerClose e = false -> isClearTimeout e = false ->
  pendingOk s -> pendingOk (emit e s).
Proof.
  intros H1 H2 H Hp. destruct (H Hp) as (? & ? & ? & ?).
  repeat split; try assumption; rewrite count_emit; assumption.
Qed.

Lemma pendingOk_getToken (code : qval) (w : Awaiter) (a : nat) (s : State) :
  pendingOk s -> pendingOk (getToken code w a s).
Proof.
  intros H. unfold getToken.
  now apply (pendingOk_emit
               (EGetToken (length (exchanges s)) code (_redirectUri (oauth2Client s)))) in H.
Qed.

Lemma pendingOk_handleCallback (q : gmap string qval) (s : State) :
  length (promises s) = 1 -> pendingOk s -> pendingOk (handleCallback q 0 s).
Proof.
  intros Hlen H. unfold handleCallback.
  destruct (truthy (q !! "error")); [| destruct (negb (truthy (q !! "code")))].
  - now apply pendingOk_resolve_cleanup.
  - now apply pendingOk_resolve_cleanup.
  - now apply pendingOk_getToken.
Qed.

Lemma pendingOk_fire (s : State) (e : Event) :
  AutoInv s -> attemptZero s -> pendingOk s ->
  enabled s e = true -> isAuthorize e = false ->
  pendingOk (fire s e).
Proof.
  intros Hinv Hz Hp Hen Hna. pose proof Hz as (H1 & H2 & H3 & H4).
  unfold enabled in Hen. apply andb_true_iff in Hen as [_ Hen].
  destruct e as [m | h port | h msg | h path q | t | k r | p input | c];
    try discriminate; cbn [fire].
  - assert (h = 0) as ->.
    { apply (binding_handle s); [apply Hinv |].
      destruct (phaseOf s h); [eauto | discriminate]. }
    destruct (servers s !! 0) as [sv|] eqn:Hsv; [| exact Hp].
    intros Hpend. unfold onListening in *. cbn [server with_servers] in *.
    destruct (server s) as [h|] eqn:Hs.
    + destruct (Hp Hpend) as (_ & Hc1 & Hc2 & _).
      pose proof (ai_handle s Hinv h Hs). subst h.
      split; [exact Hs |]. split; [| split].
      * unfold count in *. cbn. rewrite !List.filter_app, !List.length_app. cbn. lia.
      * unfold count in *. cbn. rewrite !List.filter_app, !List.length_app. cbn. lia.
      * right. split; [| now eexists].
        exists port. unfold phaseOf. cbn. rewrite list_lookup_alter_eq, Hsv.
        reflexivity.
    + destruct (Hp Hpend) as (Hs' & _). congruence.
  - destruct (servers s !! h) as [sv|] eqn:Hsv; [| exact Hp].
    rewrite (proj1 (Forall_lookup _ _) H2 _ _ Hsv). unfold onServerError.
    now apply pendingOk_resolve_cleanup.
  - destruct (servers s !! h) as [sv|] eqn:Hsv; [| exact Hp].
    rewrite (proj1 (Forall_lookup _ _) H2 _ _ Hsv). unfold onRequest.
    destruct (isRoot path); [now apply pendingOk_handleCallback |].
    now apply pendingOk_emit.
  - destruct (timers s !! t) as [tm|] eqn:Htm; [| exact Hp].
    rewrite (proj1 (Forall_lookup _ _) H3 _ _ Htm). unfold onTimeout.
    now apply pendingOk_resolve_cleanup.
  - destruct (exchanges s !! k) as [ex|] eqn:Hex; [| exact Hp].
    rewrite (proj1 (Forall_lookup _ _) H4 _ _ Hex).
    rewrite (ai_awaiters s Hinv k ex Hex).
    destruct r; cbn [handleCallback_resume]; now apply pendingOk_resolve_cleanup.
  - rewrite (ai_prompts s Hinv) in Hen. discriminate.
  - exact Hp.
Qed.


Lemma pending_start (clientId secret : string) (pf : Platform) :
  attemptZero (step (newOAuthFlow clientId secret pf) (Authorize false))
  /\ pendingOk (step (newOAuthFlow clientId secret pf) (Authorize false)).
Proof.
  split.
  - repeat split; cbn; repeat constructor.
  - intros _. repeat split. now left.
Qed.




(** ** Resolution happens once

    C2 (as amended): once an attempt is resolved its outcome is final.
    Whatever the instance receives afterwards, further requests to the
    callback path included, the value delivered to [authorize()] stays
    the same: the promise settles once.  The handler itself keeps no
    flag: a request to the callback path that reaches it with a code
    and no error invokes the token exchange, in every state. *)
Theorem C2_outcome_is_final (s : State) (a : nat) (r : AuthResult) :
  promises s !! a = Some (Some r) ->
  (forall evs,
      promises (run s evs) !! a = Some (Some r)
      /\ authorizeOutcome (run s evs) a = authorizeOutcome s a)
  /\ (forall h q,
        enabled s (Request h (Some "/") q) = true ->
        truthy (q !! "error") = false -> truthy (q !! "code") = true ->
        count isGetToken (step s (Request h (Some "/") q))
        = S (count isGetToken s)).
Proof.
  intros H. split.
  - intros evs. pose proof (run_keeps evs s a r H) as H'.
    split; [exact H' |]. unfold authorizeOutcome. now rewrite H, H'.
  - intros h q Hen He Hc. unfold step. rewrite Hen. cbn [fire].
    unfold enabled, phaseOf in Hen. apply andb_true_iff in Hen as [_ Hen].
    destruct (servers s !! h) as [sv|]; [| discriminate].
    unfold onRequest. cbn [isRoot String.eqb Ascii.eqb Bool.eqb].
    rewrite (handleCallback_code _ _ _ He Hc).
    unfold count. cbn. rewrite List.filter_app, List.length_app. cbn. lia.
Qed.

Lemma C2_witness :
  let s := run (newOAuthFlow "id" "secret" OtherPlatform)
             [Authorize false; SrvListening 0 4242;
              Request 0 (Some "/") deniedQuery] in
  (forall evs,
      promises (run s evs) !! 0 = Some (Some (failure (QStr "access_denied")))
      /\ authorizeOutcome (run s evs) 0 = authorizeOutcome s 0)
  /\ (forall h q,
        enabled s (Request h (Some "/") q) = true ->
        truthy (q !! "error") = false -> truthy (q !! "code") = true ->
        count isGetToken (step s (Request h (Some "/") q))
        = S (count isGetToken s)).
Proof.
  apply C2_outcome_is_final. vm_compute; reflexivity.
Defined.

(** The handler has no resolved flag: a request with a code that
    reaches it after the attempt was resolved starts another exchange. *)
Lemma C2_counterexample :
  let s := run (newOAuthFlow "id" "secret" OtherPlatform)
             [Authorize false; SrvListening 0 4242;
              Request 0 (Some "/") (codeQuery "4/0AbC");
              Settles 0 (Tokens (Some "1//rt"))] in
  let late := Request 0 (Some "/") (codeQuery "4/0AbC") in
  authorizeOutcome s 0 = Some (inl "1//rt")
  /\ enabled s late = true
  /\ count isGetToken s = 1
  /\ count isGetToken (step s late) = 2
  /\ authorizeOutcome (step s late) 0 = Some (inl "1//rt").
Proof. vm_compute. repeat split. Qed.

(** Nor is the first callback the only one handled while the attempt
    is unresolved: two requests with a code, two exchanges. *)
Example concurrent_callbacks :
  let s := run (newOAuthFlow "id" "secret" OtherPlatform)
             [Authorize false; SrvListening 0 4242;
              Request 0 (Some "/") (codeQuery "4/0AbC");
              Request 0 (Some "/") (codeQuery "4/0AbC")] in
  authorizeOutcome s 0 = None /\ phaseOf s 0 = Some (Listening 4242)
  /\ count isGetToken s = 2.
Proof. vm_compute. repeat split. Qed.

(** ** Re-entry

    C6 (as amended): [authorize()] has no re-entry check.  A call on a
    live instance always starts a new attempt, pending next to the
    earlier ones, whose state it leaves as it is; nothing is rejected;
    in automated mode the new listener replaces [this.server]. *)
Theorem C6_authorize_has_no_guard (s : State) (manual : bool) :
  crashed s = false ->
  let s' := step s (Authorize manual) in
  promises s' = (promises s ++ [None])%list
  /\ authorizeOutcome s' (length (promises s)) = None
  /\ (forall a, a < length (promises s) ->
        authorizeOutcome s' a = authorizeOutcome s a)
  /\ count isResolve s' = count isResolve s
  /\ (manual = false ->
        server s' = Some (length (servers s))
        /\ servers s'
           = (servers s ++ [{| srv_phase := Binding;
                               srv_attempt := length (promises s) |}])%list).
Proof.
  intros Hc s'.
  assert (Hp : promises s' = (promises s ++ [None])%list).
  { subst s'. unfold step, enabled. rewrite Hc. cbn. now destruct manual. }
  assert (Hs : s' = fire s (Authorize manual)).
  { subst s'. unfold step, enabled. now rewrite Hc. }
  split; [exact Hp |]. unfold authorizeOutcome. rewrite Hp.
  split; [| split; [| split]].
  - now rewrite lookup_app_r, Nat.sub_diag by lia.
  - intros a Ha. now rewrite lookup_app_l.
  - rewrite Hs. destruct manual; unfold count; cbn;
      rewrite ?List.filter_app, ?List.length_app; cbn; lia.
  - intros ->. rewrite Hs. split; reflexivity.
Qed.

Lemma C6_witness :
  let s := run (newOAuthFlow "id" "secret" Darwin) [Authorize false] in
  let s' := step s (Authorize false) in
  promises s' = (promises s ++ [None])%list
  /\ authorizeOutcome s' (length (promises s)) = None
  /\ (forall a, a < length (promises s) ->
        authorizeOutcome s' a = authorizeOutcome s a)
  /\ count isResolve s' = count isResolve s
  /\ (false = false ->
        server s' = Some (length (servers s))
        /\ servers s'
           = (servers s ++ [{| srv_phase := Binding;
                               srv_attempt := length (promises s) |}])%list).
Proof.
  apply (C6_authorize_has_no_guard
           (run (newOAuthFlow "id" "secret" Darwin) [Authorize false]) false).
  reflexivity.
Defined.

(** Two calls in a row: two attempts in flight on one instance. *)
Lemma C6_counterexample :
  let s := run (newOAuthFlow "id" "secret" Darwin)
             [Authorize false; Authorize false] in
  length (promises s) = 2
  /\ authorizeOutcome s 0 = None /\ authorizeOutcome s 1 = None
  /\ count isResolve s = 0
  /\ phaseOf s 0 = Some Binding /\ phaseOf s 1 = Some Binding
  /\ server s = Some 1.
Proof. vm_compute. repeat split. Qed.

(** ** The browser launcher

    C9 (at the failing input): the URL is printed before the browser is
    spawned, but when the command cannot be started the ['error'] event
    of the child, which has no listener, ends the process: whatever
    follows, the attempt is never resolved. *)
Theorem C9_spawn_error_ends_the_attempt
    (clientId secret : string) (pf : Platform) (port : N) (evs : list Event) :
  let url := buildAuthUrl clientId ("http://localhost:" +:+ pretty port) in
  let s := run (newOAuthFlow clientId secret pf)
             ([Authorize false; SrvListening 0 port; SpawnError 0] ++ evs) in
  EConsoleLog url ∈ log s
  /\ crashed s = true
  /\ authorizeOutcome s 0 = None.
Proof.
  intros url s. subst s url. cbn [app]. do 3 run_event.
  rewrite run_crashed by reflexivity.
  split; [cbn [log]; set_solver | split; reflexivity].
Qed.

(** The same run with and without the failure of the launcher. *)
Example launcher_outcomes :
  let q := codeQuery "4/0AbC" in
  let rest := [Request 0 (Some "/") q; Settles 0 (Tokens (Some "1//rt"))] in
  authorizeOutcome
    (run (newOAuthFlow "id" "secret" OtherPlatform)
       ([Authorize false; SrvListening 0 4242] ++ rest)) 0 = Some (inl "1//rt")
  /\ authorizeOutcome
       (run (newOAuthFlow "id" "secret" OtherPlatform)
          ([Authorize false; SrvListening 0 4242; SpawnError 0] ++ rest)) 0 = None.
Proof. vm_compute. split; reflexivity. Qed.

(** ** One manual attempt *)

Lemma manualOnly_emit (e : Effect) (s : State) :
  isSetTimeout e = false -> manualOnly s -> manualOnly (emit e s).
Proof.
  intros He (H1 & H2 & H3 & H4 & H5 & H6).
  repeat split; try assumption. now rewrite count_emit.
Qed.

Lemma manualOnly_resolve (a : nat) (r : AuthResult) (s : State) :
  manualOnly s -> manualOnly (resolve a r s).
Proof.
  intros H. apply (manualOnly_emit (EResolve a r)) in H; [| reflexivity].
  unfold resolve. now destruct (promises s !! a) as [[x|]|].
Qed.

Lemma manualOnly_getToken (code : qval) (w : Awaiter) (a : nat) (s : State) :
  manualOnly s -> manualOnly (getToken code w a s).
Proof.
  intros H. unfold getToken.
  now apply (manualOnly_emit
               (EGetToken (length (exchanges s)) code (_redirectUri (oauth2Client s)))) in H.
Qed.

Lemma manualOnly_cleanup (s : State) : manualOnly s -> cleanup s = s.
Proof. intros (H1 & H2 & _). now apply cleanup_idle. Qed.

Lemma manualOnly_disabled (s : State) (e : Event) :
  manualOnly s -> isAuthorize e = false ->
  enabled s e = true ->
  match e with Settles _ _ | Line _ _ => True | _ => False end.
Proof.
  intros (H1 & H2 & H3 & H4 & H5 & H6) Hna Hen.
  unfold enabled, phaseOf in Hen. apply andb_true_iff in Hen as [_ Hen].
  destruct e; try discriminate; try exact I;
    rewrite ?H3, ?H4, ?H5 in Hen; discriminate.
Qed.

Lemma manualOnly_fire (s : State) (e : Event) :
  manualOnly s -> isAuthorize e = false -> enabled s e = true ->
  manualOnly (fire s e).
Proof.
  intros H Hna Hen. pose proof (manualOnly_disabled s e H Hna Hen) as He.
  destruct e; try contradiction; cbn [fire].
  - destruct (exchanges s !! k) as [ex|]; [| assumption].
    set (s1 := with_exchanges (alter settled k (exchanges s)) s).
    assert (H1 : manualOnly s1) by exact H.
    destruct (ex_awaiter ex), r; cbn [handleCallback_resume onLine_resume].
    + unfold respond. rewrite manualOnly_cleanup by now apply manualOnly_emit.
      now apply manualOnly_resolve, manualOnly_emit.
    + unfold respond. rewrite manualOnly_cleanup by now apply manualOnly_emit.
      now apply manualOnly_resolve, manualOnly_emit.
    + now apply manualOnly_resolve.
    + now apply manualOnly_resolve.
  - destruct (prompts s !! p) as [pr|]; [| assumption].
    set (s1 := with_prompts (alter answered p (prompts s)) s).
    assert (H1 : manualOnly s1) by exact H.
    unfold onLine.
    destruct input as [path q | m]; [destruct (negb (truthy (q !! "code")))|].
    + now apply manualOnly_resolve, manualOnly_emit.
    + now apply manualOnly_getToken, manualOnly_emit.
    + now apply manualOnly_resolve, manualOnly_emit.
Qed.

Lemma manualOnly_run (evs : list Event) (s : State) :
  manualOnly s -> Forall (fun e => isAuthorize e = false) evs ->
  manualOnly (run s evs).
Proof.
  intros H Hall. revert s H.
  induction Hall as [|e evs He _ IH]; intros s H; [assumption |].
  rewrite run_cons. apply IH. unfold step.
  destruct (enabled s e) eqn:Hen; [now apply manualOnly_fire | assumption].
Qed.

Lemma manualOnly_start (clientId secret : string) (pf : Platform) :
  manualOnly (step (newOAuthFlow clientId secret pf) (Authorize true)).
Proof. repeat split. Qed.

(** While the question is unanswered nothing but a line can happen. *)
Lemma waiting_disabled (clientId secret : string) (pf : Platform) (e : Event) :
  isAuthorize e = false -> isLine e = false ->
  enabled (step (newOAuthFlow clientId secret pf) (Authorize true)) e = false.
Proof. intros Ha Hl. destruct e; try discriminate; reflexivity. Qed.

(** C5 (as amended): the manual flow arms no timer.  Throughout a
    manual attempt [this.timeoutId] is null, no timer exists, so none
    can fire, and as long as no line is entered the attempt stays
    pending. *)
Theorem C5_manual_has_no_deadline
    (clientId secret : string) (pf : Platform) (evs : list Event) :
  Forall (fun e => isAuthorize e = false) evs ->
  let s := run (newOAuthFlow clientId secret pf) (Authorize true :: evs) in
  timeoutId s = None /\ timers s = [] /\ count isSetTimeout s = 0
  /\ (forall t, enabled s (TimerFires t) = false)
  /\ (Forall (fun e => isLine e = false) evs -> authorizeOutcome s 0 = None).
Proof.
  intros Hall s. subst s. rewrite run_cons.
  pose proof (manualOnly_run evs _ (manualOnly_start clientId secret pf) Hall)
    as (H1 & H2 & H3 & H4 & H5 & H6).
  split; [assumption |]. split; [assumption |]. split; [assumption |]. split.
  - intros t. unfold enabled. rewrite H4. now rewrite andb_false_r.
  - intros Hl. rewrite run_disabled; [reflexivity |].
    apply Forall_forall. intros e Hin.
    apply waiting_disabled.
    + eapply Forall_forall in Hall; eauto.
    + eapply Forall_forall in Hl; eauto.
Qed.

Lemma C5_witness :
  let s := run (newOAuthFlow "id" "secret" OtherPlatform)
             [Authorize true; TimerFires 0; Request 0 (Some "/") deniedQuery] in
  timeoutId s = None /\ timers s = [] /\ count isSetTimeout s = 0
  /\ (forall t, enabled s (TimerFires t) = false)
  /\ (Forall (fun e => isLine e = false)
        [TimerFires 0; Request 0 (Some "/") deniedQuery] ->
      authorizeOutcome s 0 = None).
Proof.
  apply (C5_manual_has_no_deadline "id" "secret" OtherPlatform
           [TimerFires 0; Request 0 (Some "/") deniedQuery]).
  repeat constructor.
Defined.

(** After [authorize(true)] no timer is armed, and none can fire. *)
Lemma C5_counterexample :
  let s := run (newOAuthFlow "id" "secret" OtherPlatform) [Authorize true] in
  timeoutId s = None /\ timers s = [] /\ count isSetTimeout s = 0
  /\ enabled s (TimerFires 0) = false
  /\ authorizeOutcome (run s [TimerFires 0]) 0 = None.
Proof. vm_compute. repeat split. Qed.

(** C7: in manual mode a pasted URL whose query has no code resolves
    the attempt as a missing code, [authorize()] throws that message,
    and the token exchange is never invoked, whatever happens
    afterwards. *)
Theorem C7_pasted_url_without_code
    (clientId secret : string) (pf : Platform)
    (pathname : option string) (q : gmap string qval) (evs : list Event) :
  q !! "code" = None ->
  Forall (fun e => isAuthorize e = false) evs ->
  let s := run (newOAuthFlow clientId secret pf)
             (Authorize true :: Line 0 (ParsedUrl pathname q) :: evs) in
  promises s !! 0
  = Some (Some (failure (QStr "No authorization code found in URL")))
  /\ authorizeOutcome s 0 = Some (inr "No authorization code found in URL")
  /\ count isGetToken s = 0.
Proof.
  intros Hq Hall s. subst s.
  assert (Ht : truthy (q !! "code") = false) by now rewrite Hq.
  do 2 run_event. rewrite (onLine_nocode _ _ _ _ _ Ht). run_state.
  rewrite run_disabled.
  - repeat split.
  - apply Forall_forall. intros e Hin.
    assert (Ha : isAuthorize e = false) by (eapply Forall_forall in Hall; eauto).
    destruct e as [m | h p | h m | h pa qu | t | k r | p input | c];
      try discriminate; try reflexivity.
    destruct p as [|[|p]]; reflexivity.
Qed.

Lemma C7_witness :
  let s := run (newOAuthFlow "id" "secret" Darwin)
             (Authorize true :: Line 0 (ParsedUrl (Some "/") deniedQuery)
              :: [Settles 0 (Tokens (Some "1//rt"))]) in
  promises s !! 0
  = Some (Some (failure (QStr "No authorization code found in URL")))
  /\ authorizeOutcome s 0 = Some (inr "No authorization code found in URL")
  /\ count isGetToken s = 0.
Proof.
  apply (C7_pasted_url_without_code "id" "secret" Darwin (Some "/") deniedQuery
           [Settles 0 (Tokens (Some "1//rt"))]).
  - vm_compute; reflexivity.
  - repeat constructor.
Defined.

(** * Further properties *)

(** ** The cleanup *)

Lemma timers_closeServer (s : State) : timers (closeServer s) = timers s.
Proof. unfold closeServer. now destruct (server s). Qed.

Lemma servers_cancelTimer (s : State) : servers (cancelTimer s) = servers s.
Proof. unfold cancelTimer. now destruct (timeoutId s). Qed.

Lemma server_cancelTimer (s : State) : server (cancelTimer s) = server s.
Proof. unfold cancelTimer. now destruct (timeoutId s). Qed.

(** X1: [cleanup()] is idempotent: a second call changes nothing.
    After it both handles of the instance are null, the timer it held
    is disarmed, the server it held accepts no more connections, and it
    has called [close()] and [clearTimeout()] at most once each. *)
Theorem X1_cleanup_idempotent (s : State) :
  cleanup (cleanup s) = cleanup s
  /\ server (cleanup s) = None /\ timeoutId (cleanup s) = None
  /\ (forall t tm, timeoutId s = Some t -> timers (cleanup s) !! t = Some tm ->
        tm_armed tm = false)
  /\ (forall h ph, server s = Some h -> phaseOf (cleanup s) h = Some ph ->
        ph = Draining \/ ph = Dead)
  /\ count isServerClose (cleanup s) <= S (count isServerClose s)
  /\ count isClearTimeout (cleanup s) <= S (count isClearTimeout s).
Proof.
  destruct (released_cleanup s) as [Hs Ht].
  split; [apply cleanup_twice |]. split; [exact Hs |]. split; [exact Ht |].
  split; [| split; [| split]].
  - intros t tm Hid. unfold cleanup. rewrite timers_closeServer.
    unfold cancelTimer. rewrite Hid. cbn. rewrite list_lookup_alter_eq.
    destruct (timers s !! t); [| discriminate]. now intros [= <-].
  - intros h ph Hsrv. unfold cleanup, closeServer.
    rewrite server_cancelTimer, Hsrv. unfold phaseOf. cbn.
    rewrite list_lookup_alter_eq, servers_cancelTimer.
    destruct (servers s !! h) as [sv|]; [| discriminate]. cbn.
    intros [= <-]. destruct (srv_phase sv); auto.
  - unfold cleanup, closeServer, cancelTimer.
    destruct (timeoutId s); cbn; destruct (server s); unfold count; cbn;
      rewrite ?List.filter_app, ?List.length_app; cbn; lia.
  - unfold cleanup, closeServer, cancelTimer.
    destruct (timeoutId s); cbn; destruct (server s); unfold count; cbn;
      rewrite ?List.filter_app, ?List.length_app; cbn; lia.
Qed.

Lemma X1_witness :
  let s := run (newOAuthFlow "id" "secret" Darwin)
             [Authorize false; SrvListening 0 4242] in
  cleanup (cleanup s) = cleanup s
  /\ server (cleanup s) = None /\ timeoutId (cleanup s) = None
  /\ (forall t tm, timeoutId s = Some t -> timers (cleanup s) !! t = Some tm ->
        tm_armed tm = false)
  /\ (forall h ph, server s = Some h -> phaseOf (cleanup s) h = Some ph ->
        ph = Draining \/ ph = Dead)
  /\ count isServerClose (cleanup s) <= S (count isServerClose s)
  /\ count isClearTimeout (cleanup s) <= S (count isClearTimeout s).
Proof. intros s. apply (X1_cleanup_idempotent s). Defined.

(** ** The event that resolves a pending attempt *)

(** What an unresolved attempt with a live listener looks like. *)
Lemma pending_listening (s : State) :
  AutoInv s -> attemptZero s -> pendingOk s ->
  promises s !! 0 = Some None -> phaseOf s 0 <> Some Binding ->
  server s = Some 0
  /\ (exists t, timeoutId s = Some t)
  /\ (exists sv p, servers s !! 0 = Some sv /\ srv_phase sv = Listening p
                   /\ srv_attempt sv = 0)
  /\ count isServerClose s = 0 /\ count isClearTimeout s = 0.
Proof.
  intros Hinv (_ & Hsrv & _ & _) Hp Hpend Hnb.
  destruct (Hp Hpend) as (Hs & Hc1 & Hc2 & [Hb | [[p Hl] [t Ht]]]);
    [contradiction |].
  unfold phaseOf in Hl. destruct (servers s !! 0) as [sv|] eqn:Hsv; [| discriminate].
  cbn in Hl. injection Hl as Hl.
  pose proof (proj1 (Forall_lookup _ _) Hsrv _ _ Hsv) as Ha.
  repeat split; eauto 6.
Qed.

(** A handler that answers, cleans up and resolves, run on such an
    attempt. *)
Lemma terminal_step (s : State) (e : Effect) (r : AuthResult) :
  length (servers s) = 1 -> server s = Some 0 ->
  (exists t, timeoutId s = Some t) ->
  (exists sv p, servers s !! 0 = Some sv /\ srv_phase sv = Listening p) ->
  promises s !! 0 = Some None ->
  count isServerClose s = 0 -> count isClearTimeout s = 0 ->
  isServerClose e = false -> isClearTimeout e = false -> isGetToken e = false ->
  let s2 := resolve 0 r (cleanup (emit e s)) in
  promises s2 !! 0 = Some (Some r)
  /\ count isServerClose s2 = 1 /\ count isClearTimeout s2 = 1
  /\ count isGetToken s2 = count isGetToken s
  /\ e ∈ log s2
  /\ released s2.
Proof.
  intros Hlen Hs [t Ht] (sv & p & Hsv & Hl) Hpend Hc1 Hc2 He1 He2 He3 s2.
  subst s2. unfold resolve, cleanup, cancelTimer. cbn. rewrite Ht. cbn.
  unfold closeServer. cbn. rewrite Hs. cbn. rewrite Hpend.
  unfold released, count in *. cbn.
  rewrite !List.filter_app, !List.length_app. cbn. rewrite He1, He2, He3. cbn.
  split; [apply list_lookup_insert_eq; apply lookup_lt_Some in Hpend; lia |].
  repeat apply conj; try reflexivity; try lia.
  - rewrite !elem_of_app, !list_elem_of_singleton. auto.
  - intros h. unfold phaseOf. cbn. destruct h as [|h].
    + rewrite list_lookup_alter_eq, Hsv. cbn. rewrite Hl. discriminate.
    + rewrite list_lookup_alter_ne by lia.
      rewrite (proj2 (lookup_ge_None _ _)); [discriminate | lia].
Qed.

(** [bindingQuiet] holds throughout an automated attempt. *)
Lemma servers_resolve (a : nat) (r : AuthResult) (s : State) :
  servers (resolve a r s) = servers s.
Proof. unfold resolve. now destruct (promises s !! a) as [[x|]|]. Qed.

Lemma exchanges_resolve (a : nat) (r : AuthResult) (s : State) :
  exchanges (resolve a r s) = exchanges s.
Proof. unfold resolve. now destruct (promises s !! a) as [[x|]|]. Qed.

Lemma exchanges_cleanup (s : State) : exchanges (cleanup s) = exchanges s.
Proof.
  unfold cleanup, closeServer, cancelTimer.
  destruct (timeoutId s); cbn; now destruct (server s).
Qed.

Lemma cleanup_never_binds (s : State) :
  phaseOf (cleanup s) 0 = Some Binding -> phaseOf s 0 = Some Binding.
Proof.
  unfold cleanup, closeServer. rewrite server_cancelTimer.
  destruct (server s) as [h|]; unfold phaseOf; cbn; rewrite servers_cancelTimer;
    [| trivial].
  destruct (decide (h = 0)) as [->|Hne].
  - rewrite list_lookup_alter_eq. destruct (servers s !! 0) as [sv|]; [| trivial].
    cbn. destruct (srv_phase sv); discriminate.
  - now rewrite list_lookup_alter_ne.
Qed.

Lemma resolve_cleanup_never_binds (a : nat) (r : AuthResult) (s : State) :
  phaseOf (resolve a r (cleanup s)) 0 = Some Binding -> phaseOf s 0 = Some Binding.
Proof.
  unfold phaseOf at 1. rewrite servers_resolve. apply cleanup_never_binds.
Qed.

Lemma bindingQuiet_fire (s : State) (e : Event) :
  AutoInv s -> bindingQuiet s -> enabled s e = true -> isAuthorize e = false ->
  bindingQuiet (fire s e).
Proof.
  intros Hinv Hq Hen Hna.
  unfold enabled in Hen. apply andb_true_iff in Hen as [_ Hen].
  destruct e as [m | h port | h msg | h path q | t | k r | p input | c];
    try discriminate; cbn [fire].
  - assert (h = 0) as ->.
    { apply (binding_handle s); [apply Hinv |].
      destruct (phaseOf s h); [eauto | discriminate]. }
    destruct (servers s !! 0) as [sv|] eqn:Hsv; [| exact Hq].
    intros Hb. exfalso. revert Hb. unfold onListening. cbn [server with_servers].
    destruct (server s); unfold phaseOf; cbn; rewrite list_lookup_alter_eq, Hsv;
      discriminate.
  - destruct (servers s !! h) as [sv|] eqn:Hsv; [| exact Hq].
    intros Hb. exfalso. unfold onServerError in Hb.
    apply resolve_cleanup_never_binds in Hb. revert Hb.
    assert (h = 0) as ->.
    { apply (binding_handle s); [apply Hinv |]. unfold phaseOf. rewrite Hsv. eauto. }
    unfold phaseOf. cbn. rewrite list_lookup_alter_eq, Hsv. cbn.
    destruct (srv_phase sv); discriminate.
  - assert (h = 0) as ->.
    { apply (binding_handle s); [apply Hinv |].
      destruct (phaseOf s h); [eauto | discriminate]. }
    assert (Hnb : phaseOf s 0 <> Some Binding).
    { intros Hb. rewrite Hb in Hen. discriminate. }
    destruct (servers s !! 0) as [sv|] eqn:Hsv; [| exact Hq].
    intros Hb. exfalso. apply Hnb. revert Hb. unfold onRequest.
    destruct (isRoot path); [| trivial]. unfold handleCallback.
    destruct (truthy (q !! "error")); [| destruct (negb (truthy (q !! "code")))];
      try (intros Hb; now apply resolve_cleanup_never_binds in Hb). trivial.
  - destruct (timers s !! t) as [tm|] eqn:Htm; [| exact Hq].
    intros Hb. exfalso. unfold onTimeout in Hb.
    apply resolve_cleanup_never_binds in Hb.
    destruct (ai_binding s Hinv Hb) as (_ & Hnil & _). rewrite Hnil in Htm.
    now rewrite lookup_nil in Htm.
  - destruct (exchanges s !! k) as [ex|] eqn:Hex; [| exact Hq].
    intros Hb. exfalso.
    assert (Hb' : phaseOf s 0 = Some Binding).
    { destruct (ex_awaiter ex), r; cbn [handleCallback_resume onLine_resume] in Hb;
        try apply resolve_cleanup_never_binds in Hb; try exact Hb;
        unfold phaseOf in Hb; rewrite servers_resolve in Hb; exact Hb. }
    rewrite (Hq Hb') in Hex. now rewrite lookup_nil in Hex.
  - rewrite (ai_prompts s Hinv) in Hen. discriminate.
  - exact Hq.
Qed.

(** All the invariants of an automated attempt, at any point of it. *)
Lemma attempt_invariants (clientId secret : string) (pf : Platform) (evs : list Event) :
  Forall (fun e => isAuthorize e = false) evs ->
  let s := run (newOAuthFlow clientId secret pf) (Authorize false :: evs) in
  AutoInv s /\ attemptZero s /\ pendingOk s /\ bindingQuiet s.
Proof.
  intros Hall s. subst s. rewrite run_cons.
  set (s0 := step (newOAuthFlow clientId secret pf) (Authorize false)).
  assert (H0 : AutoInv s0 /\ attemptZero s0 /\ pendingOk s0 /\ bindingQuiet s0).
  { destruct (pending_start clientId secret pf) as [Hz0 Hp0].
    split; [apply inv_start | split; [exact Hz0 | split; [exact Hp0 |]]].
    intros _. reflexivity. }
  clearbody s0. revert s0 H0.
  induction Hall as [|e evs He _ IH]; intros s (Hinv & Hz & Hp & Hq); [auto |].
  rewrite run_cons. unfold step. destruct (enabled s e) eqn:Hen; [| now apply IH].
  apply IH. split; [| split; [| split]].
  - now apply fire_inv.
  - apply attemptZero_fire; [assumption | apply Hinv | assumption].
  - now apply pendingOk_fire.
  - now apply bindingQuiet_fire.
Qed.

(** X2: when the timer of an automated attempt fires while
    [authorize()] is unresolved, the attempt prints the time-out line,
    starts no exchange, and [authorize()] throws "Authorization timed
    out", whatever the runtime delivers afterwards; over the whole
    attempt the server is closed once and the timer cleared once. *)
Theorem X2_deadline_resolves_pending_attempt
    (clientId secret : string) (pf : Platform)
    (pre evs : list Event) (t : nat) :
  Forall (fun e => isAuthorize e = false) pre ->
  Forall (fun e => isAuthorize e = false) evs ->
  let s1 := run (newOAuthFlow clientId secret pf) (Authorize false :: pre) in
  promises s1 !! 0 = Some None ->
  enabled s1 (TimerFires t) = true ->
  let s2 := step s1 (TimerFires t) in
  let s := run s2 evs in
  authorizeOutcome s 0 = Some (inr "Authorization timed out")
  /\ EConsoleLog "Authorization timed out after 2 minutes" ∈ log s2
  /\ count isGetToken s2 = count isGetToken s1
  /\ count isServerClose s = 1
  /\ count isClearTimeout s = 1.
Proof.
  intros Hpre Hall s1 Hpend Hen s2 s.
  destruct (attempt_invariants clientId secret pf pre Hpre) as (Hinv & Hz & Hp & Hq).
  fold s1 in Hinv, Hz, Hp, Hq. clearbody s1.
  assert (Hs2 : s2 = fire s1 (TimerFires t)) by (unfold s2, step; now rewrite Hen).
  unfold enabled in Hen. apply andb_true_iff in Hen as [_ Hen].
  destruct (timers s1 !! t) as [tm|] eqn:Htm; [| discriminate].
  assert (Hnb : phaseOf s1 0 <> Some Binding).
  { intros Hb. destruct (ai_binding s1 Hinv Hb) as (_ & Hnil & _).
    rewrite Hnil in Htm. now rewrite lookup_nil in Htm. }
  destruct (pending_listening s1 Hinv Hz Hp Hpend Hnb)
    as (Hs & Ht & (sv & p & Hsv & Hl & _) & Hc1 & Hc2).
  destruct Hz as (_ & _ & Htms & _).
  pose proof (proj1 (Forall_lookup _ _) Htms _ _ Htm) as Ha.
  destruct (terminal_step (with_timers (alter disarm t (timers s1)) s1)
              (EConsoleLog "Authorization timed out after 2 minutes")
              (failure (QStr "Authorization timed out")))
    as (Hp2 & Hc & Hct & Hg & Hin & Hr); try reflexivity; try assumption;
    [apply Hinv | eauto |].
  assert (Hs2' : s2 = resolve 0 (failure (QStr "Authorization timed out"))
                        (cleanup (emit (EConsoleLog
                                          "Authorization timed out after 2 minutes")
                                    (with_timers (alter disarm t (timers s1)) s1)))).
  { rewrite Hs2. cbn [fire]. rewrite Htm, Ha. reflexivity. }
  rewrite <- Hs2' in Hp2, Hc, Hct, Hg, Hin, Hr.
  destruct (released_run evs s2 Hr Hall) as [_ [Hc' Ht']]. fold s in Hc', Ht'.
  pose proof (run_keeps evs s2 0 _ Hp2) as Hp'. fold s in Hp'.
  repeat split; try assumption; try congruence.
  unfold authorizeOutcome. now rewrite Hp'.
Qed.

Lemma X2_witness :
  let pre := [SrvListening 0 4242; Request 0 (Some "/favicon.ico") ∅;
              Request 0 (Some "/") (codeQuery "4/0AbC")] in
  let evs := [Settles 0 (Tokens (Some "1//rt")); Request 0 (Some "/") deniedQuery] in
  let s1 := run (newOAuthFlow "id" "secret" Darwin) (Authorize false :: pre) in
  let s2 := step s1 (TimerFires 0) in
  let s := run s2 evs in
  authorizeOutcome s 0 = Some (inr "Authorization timed out")
  /\ EConsoleLog "Authorization timed out after 2 minutes" ∈ log s2
  /\ count isGetToken s2 = count isGetToken s1
  /\ count isServerClose s = 1
  /\ count isClearTimeout s = 1.
Proof.
  intros pre evs.
  apply (X2_deadline_resolves_pending_attempt "id" "secret" Darwin pre evs 0).
  - repeat constructor.
  - repeat constructor.
  - vm_compute; reflexivity.
  - vm_compute; reflexivity.
Defined.

Lemma authorizeReturn_exchange (r : Exchanged) :
  authorizeReturn (exchangeResult r) = exchangeOutcome r.
Proof. destruct r as [[[|c t]|]|[|c m]]; reflexivity. Qed.

(** X3: when several callbacks are waiting for their exchange, the
    first exchange to settle while [authorize()] is unresolved decides
    its result: the refresh token, "No refresh token received", or the
    message of the exception.  The browser gets the success page or the
    error page, no exchange is started by it, and whatever arrives
    later changes neither the result nor the single close and the
    single [clearTimeout]. *)
Theorem X3_first_exchange_to_settle_decides
    (clientId secret : string) (pf : Platform)
    (pre evs : list Event) (k : nat) (r : Exchanged) :
  Forall (fun e => isAuthorize e = false) pre ->
  Forall (fun e => isAuthorize e = false) evs ->
  let s1 := run (newOAuthFlow clientId secret pf) (Authorize false :: pre) in
  promises s1 !! 0 = Some None ->
  enabled s1 (Settles k r) = true ->
  let s2 := step s1 (Settles k r) in
  let s := run s2 evs in
  promises s !! 0 = Some (Some (exchangeResult r))
  /\ authorizeOutcome s 0 = Some (exchangeOutcome r)
  /\ exchangePage r ∈ log s2
  /\ count isGetToken s2 = count isGetToken s1
  /\ count isServerClose s = 1
  /\ count isClearTimeout s = 1.
Proof.
  intros Hpre Hall s1 Hpend Hen s2 s.
  destruct (attempt_invariants clientId secret pf pre Hpre) as (Hinv & Hz & Hp & Hq).
  fold s1 in Hinv, Hz, Hp, Hq. clearbody s1.
  assert (Hs2 : s2 = fire s1 (Settles k r)) by (unfold s2, step; now rewrite Hen).
  unfold enabled in Hen. apply andb_true_iff in Hen as [_ Hen].
  destruct (exchanges s1 !! k) as [ex|] eqn:Hex; [| discriminate].
  assert (Hnb : phaseOf s1 0 <> Some Binding).
  { intros Hb. rewrite (Hq Hb) in Hex. now rewrite lookup_nil in Hex. }
  destruct (pending_listening s1 Hinv Hz Hp Hpend Hnb)
    as (Hs & Ht & (sv & p & Hsv & Hl & _) & Hc1 & Hc2).
  destruct Hz as (_ & _ & _ & Hexs).
  pose proof (proj1 (Forall_lookup _ _) Hexs _ _ Hex) as Ha.
  pose proof (ai_awaiters s1 Hinv k ex Hex) as Hw.
  assert (Hpage : exists st body, exchangePage r = ERespond st body)
    by (destruct r; cbn; eauto).
  destruct Hpage as (st & body & Hpage).
  destruct (terminal_step (with_exchanges (alter settled k (exchanges s1)) s1)
              (ERespond st body) (exchangeResult r))
    as (Hp2 & Hc & Hct & Hg & Hin & Hr); try reflexivity; try assumption;
    [apply Hinv | eauto |].
  assert (Hs2' : s2 = resolve 0 (exchangeResult r)
                        (cleanup (emit (ERespond st body)
                                    (with_exchanges (alter settled k (exchanges s1)) s1)))).
  { rewrite Hs2. cbn [fire]. rewrite Hex, Ha, Hw.
    destruct r; cbn in Hpage; injection Hpage as <- <-; reflexivity. }
  rewrite <- Hs2' in Hp2, Hc, Hct, Hg, Hin, Hr. rewrite <- Hpage in Hin.
  destruct (released_run evs s2 Hr Hall) as [_ [Hc' Ht']]. fold s in Hc', Ht'.
  pose proof (run_keeps evs s2 0 _ Hp2) as Hp'. fold s in Hp'.
  repeat split; try assumption; try congruence.
  unfold authorizeOutcome. now rewrite Hp', authorizeReturn_exchange.
Qed.

Lemma X3_witness :
  let pre := [SrvListening 0 4242; Request 0 (Some "/") (codeQuery "first");
              Request 0 (Some "/") (codeQuery "second")] in
  let evs := [Settles 0 (Tokens (Some "1//rt")); TimerFires 0] in
  let r := Throws "invalid_grant" in
  let s1 := run (newOAuthFlow "id" "secret" Darwin) (Authorize false :: pre) in
  let s2 := step s1 (Settles 1 r) in
  let s := run s2 evs in
  promises s !! 0 = Some (Some (exchangeResult r))
  /\ authorizeOutcome s 0 = Some (exchangeOutcome r)
  /\ exchangePage r ∈ log s2
  /\ count isGetToken s2 = count isGetToken s1
  /\ count isServerClose s = 1
  /\ count isClearTimeout s = 1.
Proof.
  intros pre evs r.
  apply (X3_first_exchange_to_settle_decides "id" "secret" Darwin pre evs 1 r).
  - repeat constructor.
  - repeat constructor.
  - vm_compute; reflexivity.
  - vm_compute; reflexivity.
Defined.

(** ** A settled exchange and the attempt it belongs to *)





(** ** A code delivered to the callback *)




(** ** Requests to other paths *)

Lemma enabled_log (l : list Effect) (s : State) (e : Event) :
  enabled (with_log l s) e = enabled s e.
Proof. reflexivity. Qed.

(** X4: requests to any path other than [/] are answered with status
    404 and an empty body, one answer for each request that reaches a
    server that is listening or draining, and do nothing else, in
    every state of the instance: they neither resolve the attempt nor
    start an exchange, nor touch the server, the timer or the client. *)
Theorem X4_other_paths_only_get_404 (s : State) (reqs : list Event) :
  Forall (fun e => isStray e = true) reqs ->
  run s reqs
  = with_log (log s ++ replicate (length (List.filter (enabled s) reqs))
                         (ERespond 404 EmptyString)) s.
Proof.
  intros Hall.
  assert (Hgen : forall l,
             run (with_log l s) reqs
             = with_log (l ++ replicate (length (List.filter (enabled s) reqs))
                                (ERespond 404 EmptyString)) s).
  { induction Hall as [|e reqs He _ IH]; intros l.
    - cbn. now rewrite app_nil_r.
    - rewrite run_cons. unfold step. rewrite enabled_log. cbn [List.filter].
      destruct (enabled s e) eqn:Hen; [| apply IH].
      destruct e as [m | h port | h msg | h path q | t | k r | p input | c];
        try discriminate.
      cbn [fire]. unfold enabled in Hen. apply andb_true_iff in Hen as [_ Hen].
      unfold phaseOf in Hen. change (servers (with_log l s)) with (servers s).
      destruct (servers s !! h) as [sv|]; [| discriminate].
      unfold onRequest. cbn in He. destruct (isRoot path); [discriminate |].
      change (respond 404 EmptyString (with_log l s))
        with (with_log (l ++ [ERespond 404 EmptyString]) s).
      rewrite IH. cbn [length replicate]. now rewrite <- app_assoc. }
  specialize (Hgen (log s)). replace (with_log (log s) s) with s in Hgen by now destruct s.
  exact Hgen.
Qed.

Lemma X4_witness :
  let s := run (newOAuthFlow "id" "secret" Darwin)
             [Authorize false; SrvListening 0 4242] in
  let reqs := [Request 0 (Some "/favicon.ico") ∅;
               Request 0 (Some "/callback") (codeQuery "4/0AbC");
               Request 1 (Some "/x") ∅;
               Request 0 None deniedQuery] in
  run s reqs
  = with_log (log s ++ replicate (length (List.filter (enabled s) reqs))
                         (ERespond 404 EmptyString)) s
  /\ length (List.filter (enabled s) reqs) = 3.
Proof.
  intros s reqs. split.
  - apply (X4_other_paths_only_get_404 s reqs). repeat constructor.
  - vm_compute; reflexivity.
Defined.

(** Nothing can happen to an instance without server, timer, exchange,
    prompt or child process that is waiting for something. *)
Lemma idle_disabled (s : State) (e : Event) :
  (forall h, phaseOf s h = None \/ phaseOf s h = Some Dead) ->
  Forall (fun tm => tm_armed tm = false) (timers s) ->
  Forall (fun ex => ex_pending ex = false) (exchanges s) ->
  Forall (fun pr => pr_pending pr = false) (prompts s) ->
  children s = 0 -> isAuthorize e = false ->
  enabled s e = false.
Proof.
  intros Hph Htm Hex Hpr Hch Hna. unfold enabled.
  destruct (crashed s); [reflexivity |]. cbn [negb andb].
  destruct e as [m | h port | h msg | h path q | t | k r | p input | c];
    try discriminate.
  - destruct (Hph h) as [-> | ->]; reflexivity.
  - destruct (Hph h) as [-> | ->]; reflexivity.
  - destruct (Hph h) as [-> | ->]; reflexivity.
  - destruct (timers s !! t) as [tm|] eqn:Ht; [| reflexivity].
    apply (proj1 (Forall_lookup _ _) Htm _ _ Ht).
  - destruct (exchanges s !! k) as [ex|] eqn:Hk; [| reflexivity].
    apply (proj1 (Forall_lookup _ _) Hex _ _ Hk).
  - destruct (prompts s !! p) as [pr|] eqn:Hp; [| reflexivity].
    apply (proj1 (Forall_lookup _ _) Hpr _ _ Hp).
  - now rewrite Hch.
Qed.

Lemma idle_run (s : State) (evs : list Event) :
  (forall h, phaseOf s h = None \/ phaseOf s h = Some Dead) ->
  Forall (fun tm => tm_armed tm = false) (timers s) ->
  Forall (fun ex => ex_pending ex = false) (exchanges s) ->
  Forall (fun pr => pr_pending pr = false) (prompts s) ->
  children s = 0 ->
  Forall (fun e => isAuthorize e = false) evs ->
  run s evs = s.
Proof.
  intros Hph Htm Hex Hpr Hch Hall. apply run_disabled.
  apply Forall_forall. intros e Hin. apply idle_disabled; try assumption.
  eapply Forall_forall in Hall; eauto.
Qed.

(** X5: when the listener reports an error before it is listening,
    the automated attempt closes the server and [authorize()] throws
    the message of the error ("Authorization failed" when it is
    empty).  Nothing was printed, no browser opened and no timer set,
    and nothing the runtime delivers afterwards has any effect. *)
Theorem X5_bind_failure
    (clientId secret : string) (pf : Platform) (message : string)
    (evs : list Event) :
  Forall (fun e => isAuthorize e = false) evs ->
  let s := run (newOAuthFlow clientId secret pf)
             (Authorize false :: SrvError 0 message :: evs) in
  authorizeOutcome s 0 = Some (inr (orAuthorizationFailed message))
  /\ log s = [ECreateServer 0; EListen 0; EServerClose 0;
              EResolve 0 (failure (QStr message))]
  /\ phaseOf s 0 = Some Dead
  /\ server s = None /\ timeoutId s = None.
Proof.
  intros Hall s. subst s. do 2 run_event.
  rewrite idle_run; try assumption; try reflexivity; try solve [repeat constructor].
  - repeat split. destruct message; reflexivity.
  - intros [|h]; [now right | now left].
Qed.

Lemma X5_witness :
  let s := run (newOAuthFlow "id" "secret" Win32)
             (Authorize false :: SrvError 0 "listen EADDRNOTAVAIL"
              :: [SrvListening 0 4242; Request 0 (Some "/") deniedQuery]) in
  authorizeOutcome s 0 = Some (inr (orAuthorizationFailed "listen EADDRNOTAVAIL"))
  /\ log s = [ECreateServer 0; EListen 0; EServerClose 0;
              EResolve 0 (failure (QStr "listen EADDRNOTAVAIL"))]
  /\ phaseOf s 0 = Some Dead
  /\ server s = None /\ timeoutId s = None.
Proof.
  apply (X5_bind_failure "id" "secret" Win32 "listen EADDRNOTAVAIL"
           [SrvListening 0 4242; Request 0 (Some "/") deniedQuery]).
  repeat constructor.
Defined.

(** X6: when the pasted input of the manual flow makes [url.parse]
    throw, the prompt is closed, no exchange is started and
    [authorize()] throws the message of the exception ("Authorization
    failed" when it is empty). *)
Theorem X6_manual_input_that_does_not_parse
    (clientId secret : string) (pf : Platform) (message : string)
    (evs : list Event) :
  Forall (fun e => isAuthorize e = false) evs ->
  let s := run (newOAuthFlow clientId secret pf)
             (Authorize true :: Line 0 (ParseThrows message) :: evs) in
  authorizeOutcome s 0 = Some (inr (orAuthorizationFailed message))
  /\ ERlClose 0 ∈ log s
  /\ count isGetToken s = 0
  /\ count isResolve s = 1.
Proof.
  intros Hall s. subst s. do 2 run_event. unfold onLine. run_state.
  rewrite idle_run; try assumption; try reflexivity; try solve [repeat constructor].
  - repeat split; [destruct message; reflexivity |].
    cbn [log]. rewrite !elem_of_cons. auto 10.
Qed.

Lemma X6_witness :
  let s := run (newOAuthFlow "id" "secret" Win32)
             (Authorize true :: Line 0 (ParseThrows "Invalid URL")
              :: [Settles 0 (Tokens (Some "1//rt")); TimerFires 0]) in
  authorizeOutcome s 0 = Some (inr (orAuthorizationFailed "Invalid URL"))
  /\ ERlClose 0 ∈ log s
  /\ count isGetToken s = 0
  /\ count isResolve s = 1.
Proof.
  apply (X6_manual_input_that_does_not_parse "id" "secret" Win32 "Invalid URL"
           [Settles 0 (Tokens (Some "1//rt")); TimerFires 0]).
  repeat constructor.
Defined.

(** X7: when the pasted URL of the manual flow has a truthy [code],
    that code is exchanged once, with the redirect URI
    [http://localhost:1], and [authorize()] reports what the exchange
    gives: the refresh token, "No refresh token received", or the
    message of the exception.  The manual flow creates no server, no
    timer and no child process. *)
Theorem X7_manual_exchange
    (clientId secret : string) (pf : Platform)
    (pathname : option string) (q : gmap string qval) (r : Exchanged)
    (evs : list Event) :
  truthy (q !! "code") = true ->
  Forall (fun e => isAuthorize e = false) evs ->
  let s := run (newOAuthFlow clientId secret pf)
             (Authorize true :: Line 0 (ParsedUrl pathname q)
              :: Settles 0 r :: evs) in
  authorizeOutcome s 0 = Some (exchangeOutcome r)
  /\ EGetToken 0 (queryValue (q !! "code")) (Some "http://localhost:1") ∈ log s
  /\ count isGetToken s = 1
  /\ count isResolve s = 1
  /\ servers s = [] /\ timers s = [] /\ children s = 0.
Proof.
  intros Hc Hall s. subst s.
  remember (queryValue (q !! "code")) as v eqn:Ev.
  do 2 run_event. rewrite (onLine_code _ _ _ _ _ Hc), <- Ev.
  destruct r as [rt | m]; run_event.
  - rewrite idle_run; try assumption; try reflexivity; try solve [repeat constructor].
    + split; [destruct rt as [[|c t]|]; reflexivity |].
      split; [cbn [log]; rewrite !elem_of_cons; auto 20 | repeat split].
  - rewrite idle_run; try assumption; try reflexivity; try solve [repeat constructor].
    + split; [destruct m; reflexivity |].
      split; [cbn [log]; rewrite !elem_of_cons; auto 20 | repeat split].
Qed.

Lemma X7_witness :
  let q := codeQuery "4/0AbC" in
  let s := run (newOAuthFlow "id" "secret" Darwin)
             (Authorize true :: Line 0 (ParsedUrl (Some "/") q)
              :: Settles 0 (Throws "invalid_grant") :: [TimerFires 0]) in
  authorizeOutcome s 0 = Some (exchangeOutcome (Throws "invalid_grant"))
  /\ EGetToken 0 (queryValue (q !! "code")) (Some "http://localhost:1") ∈ log s
  /\ count isGetToken s = 1
  /\ count isResolve s = 1
  /\ servers s = [] /\ timers s = [] /\ children s = 0.
Proof.
  intros q.
  apply (X7_manual_exchange "id" "secret" Darwin (Some "/") q
           (Throws "invalid_grant") [TimerFires 0]).
  - vm_compute; reflexivity.
  - repeat constructor.
Defined.

Lemma continues_refl (P : Effect -> Prop) (s s' : State) :
  oauth2Client s' = oauth2Client s -> platform s' = platform s ->
  log s' = log s -> continues P s s'.
Proof.
  intros Hc Hp Hl. split; [exact Hc |]. split; [exact Hp |].
  exists []. rewrite app_nil_r. now split.
Qed.

Lemma continues_trans (P : Effect -> Prop) (s1 s2 s3 : State) :
  continues P s1 s2 -> continues P s2 s3 -> continues P s1 s3.
Proof.
  intros (Hc1 & Hp1 & es1 & Hl1 & H1) (Hc2 & Hp2 & es2 & Hl2 & H2).
  split; [congruence |]. split; [congruence |]. exists (es1 ++ es2)%list.
  split; [rewrite Hl2, Hl1; now rewrite app_assoc | now apply Forall_app].
Qed.

Lemma continues_emit (P : Effect -> Prop) (x : Effect) (s : State) :
  P x -> continues P s (emit x s).
Proof.
  intros Hx. split; [reflexivity |]. split; [reflexivity |].
  exists [x]. split; [reflexivity |]. now repeat constructor.
Qed.

Lemma continues_cancelTimer (P : Effect -> Prop) (s : State) :
  (forall t, P (EClearTimeout t)) -> continues P s (cancelTimer s).
Proof.
  intros HP. unfold cancelTimer. destruct (timeoutId s) as [t|].
  - split; [reflexivity |]. split; [reflexivity |].
    exists [EClearTimeout t]. split; [reflexivity |]. now repeat constructor.
  - now apply continues_refl.
Qed.

Lemma continues_closeServer (P : Effect -> Prop) (s : State) :
  (forall h, P (EServerClose h)) -> continues P s (closeServer s).
Proof.
  intros HP. unfold closeServer. destruct (server s) as [h|].
  - split; [reflexivity |]. split; [reflexivity |].
    exists [EServerClose h]. split; [reflexivity |]. now repeat constructor.
  - now apply continues_refl.
Qed.

Lemma continues_cleanup (P : Effect -> Prop) (s : State) :
  (forall t, P (EClearTimeout t)) -> (forall h, P (EServerClose h)) ->
  continues P s (cleanup s).
Proof.
  intros H1 H2. unfold cleanup. eapply continues_trans.
  - now apply continues_cancelTimer.
  - now apply continues_closeServer.
Qed.

Lemma continues_resolve (P : Effect -> Prop) (a : nat) (r : AuthResult) (s : State) :
  P (EResolve a r) -> continues P s (resolve a r s).
Proof.
  intros HP. unfold resolve.
  destruct (promises s !! a) as [[x|]|];
    (split; [reflexivity |]; split; [reflexivity |];
     exists [EResolve a r]; split; [reflexivity |];
     constructor; [exact HP | constructor]).
Qed.

Lemma continues_answer (ru : option string) (x : Effect) (a : nat)
    (r : AuthResult) (s0 s : State) :
  afterAnnouncement ru x -> continues (afterAnnouncement ru) s0 s ->
  continues (afterAnnouncement ru) s0 (resolve a r (cleanup (emit x s))).
Proof.
  intros Hx H0. eapply continues_trans; [exact H0 |].
  eapply continues_trans; [now apply (continues_emit _ x) |].
  eapply continues_trans; [apply continues_cleanup; intros; exact I |].
  apply continues_resolve. exact I.
Qed.

Lemma continues_getToken (code : qval) (w : Awaiter) (a : nat) (s : State) :
  continues (afterAnnouncement (_redirectUri (oauth2Client s))) s (getToken code w a s).
Proof.
  split; [reflexivity |]. split; [reflexivity |].
  exists [EGetToken (length (exchanges s)) code (_redirectUri (oauth2Client s))].
  split; [reflexivity |]. now repeat constructor.
Qed.

(** Every callback but the ['listening'] one continues the log in this
    way. *)
Lemma fire_continues (s : State) (e : Event) :
  prompts s = [] -> isAuthorize e = false ->
  (forall h port, e <> SrvListening h port) ->
  continues (afterAnnouncement (_redirectUri (oauth2Client s))) s (fire s e).
Proof.
  intros Hpr Hna Hnl.
  set (P := afterAnnouncement (_redirectUri (oauth2Client s))).
  assert (Hrefl : forall s', oauth2Client s' = oauth2Client s ->
                             platform s' = platform s -> log s' = log s ->
                             continues P s s')
    by (intros; now apply continues_refl).
  destruct e as [m | h port | h msg | h path q | t | k r | p input | c];
    try discriminate; cbn [fire].
  - now destruct (Hnl h port).
  - destruct (servers s !! h) as [sv|]; [| now apply Hrefl].
    unfold onServerError.
    eapply continues_trans;
      [apply (Hrefl (with_servers (alter failed h (servers s)) s)); reflexivity |].
    eapply continues_trans; [apply continues_cleanup; intros; exact I |].
    apply continues_resolve. exact I.
  - destruct (servers s !! h) as [sv|]; [| now apply Hrefl]. unfold onRequest.
    destruct (isRoot path); [| now apply continues_emit]. unfold handleCallback.
    destruct (truthy (q !! "error")); [| destruct (negb (truthy (q !! "code")))].
    + apply continues_answer; [exact I | now apply Hrefl].
    + apply continues_answer; [exact I | now apply Hrefl].
    + apply continues_getToken.
  - destruct (timers s !! t) as [tm|]; [| now apply Hrefl]. unfold onTimeout.
    apply continues_answer; [reflexivity | now apply Hrefl].
  - destruct (exchanges s !! k) as [ex|]; [| now apply Hrefl].
    destruct (ex_awaiter ex), r; cbn [handleCallback_resume onLine_resume].
    + apply continues_answer; [exact I | now apply Hrefl].
    + apply continues_answer; [exact I | now apply Hrefl].
    + eapply continues_trans;
        [apply (Hrefl (with_exchanges (alter settled k (exchanges s)) s));
         reflexivity |].
      apply continues_resolve. exact I.
    + eapply continues_trans;
        [apply (Hrefl (with_exchanges (alter settled k (exchanges s)) s));
         reflexivity |].
      apply continues_resolve. exact I.
  - rewrite Hpr, lookup_nil. now apply Hrefl.
  - now apply Hrefl.
Qed.

Lemma fire_never_binds (s : State) (e : Event) :
  isAuthorize e = false ->
  phaseOf (fire s e) 0 = Some Binding -> phaseOf s 0 = Some Binding.
Proof.
  intros Hna.
  assert (Halter : forall (f : Server -> Server) h,
             (forall sv, srv_phase (f sv) <> Binding) ->
             phaseOf (with_servers (alter f h (servers s)) s) 0 = Some Binding ->
             phaseOf s 0 = Some Binding).
  { intros f h Hf. rewrite phaseOf_alter. destruct (decide (h = 0)); [| trivial].
    destruct (servers s !! 0) as [sv|]; [| discriminate]. cbn.
    intros [= Hb]. now destruct (Hf sv). }
  destruct e as [m | h port | h msg | h path q | t | k r | p input | c];
    try discriminate; cbn [fire].
  - destruct (servers s !! h) as [sv|]; [| trivial].
    intros Hb. apply (Halter (listening port) h); [discriminate |].
    revert Hb. unfold onListening. cbn [server with_servers].
    now destruct (server s).
  - destruct (servers s !! h) as [sv|]; [| trivial]. unfold onServerError.
    intros Hb%resolve_cleanup_never_binds. revert Hb. apply Halter.
    intros sv'. cbn. destruct (srv_phase sv'); discriminate.
  - destruct (servers s !! h) as [sv|]; [| trivial]. unfold onRequest.
    destruct (isRoot path); [| trivial]. unfold handleCallback.
    destruct (truthy (q !! "error")); [| destruct (negb (truthy (q !! "code")))];
      try (intros Hb; now apply resolve_cleanup_never_binds in Hb). trivial.
  - destruct (timers s !! t) as [tm|]; [| trivial]. unfold onTimeout.
    now intros Hb%resolve_cleanup_never_binds.
  - destruct (exchanges s !! k) as [ex|]; [| trivial].
    destruct (ex_awaiter ex), r; cbn [handleCallback_resume onLine_resume];
      try (now intros Hb%resolve_cleanup_never_binds);
      unfold phaseOf at 1; now rewrite servers_resolve.
  - destruct (prompts s !! p) as [pr|]; [| trivial]. unfold onLine.
    destruct input as [path q | m]; [destruct (negb (truthy (q !! "code")))|];
      unfold phaseOf at 1; rewrite ?servers_resolve; trivial.
  - trivial.
Qed.

Lemma shape_fire (clientId : string) (pf : Platform) (evs : list Event)
    (s : State) (e : Event) :
  AutoInv s -> attemptShape clientId pf evs s ->
  enabled s e = true -> isAuthorize e = false ->
  attemptShape clientId pf (evs ++ [e]) (fire s e).
Proof.
  intros Hinv (Hcid & Hpf & Hshape) Hen Hna.
  pose proof (ai_prompts s Hinv) as Hpr.
  assert (Hzero : forall h, is_Some (phaseOf s h) -> h = 0)
    by (intros h; apply binding_handle, Hinv).
  destruct Hshape as [(Hb & Hru & Hlog & Hex & Hch)
                     | [(Hd & Hru & Hlog & Htm & Hex & Hch)
                       | (port & rest & Hin & Hnb & Hru & Hlog & Hrest)]].
  - (* binding *)
    destruct (ai_binding s Hinv Hb) as (Hid & Htm & _).
    assert (Hs : server s = Some 0).
    { destruct (server s) as [h|] eqn:Hs; [now rewrite (ai_handle s Hinv h) |].
      destruct (ai_closed s Hinv Hs) as [_ [Hx | Hx]]; congruence. }
    unfold enabled in Hen. apply andb_true_iff in Hen as [_ Hen].
    destruct e as [m | h port | h msg | h path q | t | k r | p input | c];
      try discriminate.
    + assert (h = 0) as ->
        by (apply Hzero; destruct (phaseOf s h); [eauto | discriminate]).
      unfold phaseOf in Hb. cbn [fire].
      destruct (servers s !! 0) as [sv|] eqn:Hsv; [| discriminate].
      unfold onListening. cbn [server with_servers]. rewrite Hs.
      assert (Hport : addressPort (with_servers (alter (listening port) 0 (servers s)) s) 0
                      = port).
      { unfold addressPort. cbn. now rewrite list_lookup_alter_eq, Hsv. }
      rewrite Hport. split; [exact Hcid |]. split; [exact Hpf |].
      right. right. exists port, []. repeat apply conj.
      * apply elem_of_app. right. now apply list_elem_of_singleton.
      * unfold phaseOf. cbn. rewrite list_lookup_alter_eq, Hsv. discriminate.
      * reflexivity.
      * unfold armTimer, openBrowser, announcement. cbn.
        rewrite Hlog, Htm, Hch, Hcid, Hpf. reflexivity.
      * constructor.
    + assert (h = 0) as ->.
      { apply Hzero. destruct (phaseOf s h); [eauto | discriminate]. }
      unfold phaseOf in Hb. cbn [fire].
      destruct (servers s !! 0) as [sv|] eqn:Hsv; [| discriminate].
      cbn in Hb. injection Hb as Hb.
      unfold onServerError, resolve, cleanup, cancelTimer. cbn. rewrite Hid.
      unfold closeServer. cbn. rewrite Hs.
      split; [now destruct (promises _ !! srv_attempt sv) as [[x|]|] |].
      split; [now destruct (promises _ !! srv_attempt sv) as [[x|]|] |].
      right. left.
      assert (Hph : srv_phase <$> alter closed 0 (alter failed 0 (servers s)) !! 0
                    = Some Dead).
      { rewrite !list_lookup_alter_eq, Hsv. cbn. now rewrite Hb. }
      destruct (promises _ !! srv_attempt sv) as [[x|]|]; cbn;
        unfold phaseOf; cbn; rewrite Hlog;
        (repeat apply conj; try assumption; try reflexivity; eauto).
    + assert (h = 0) as ->
        by (apply Hzero; destruct (phaseOf s h); [eauto | discriminate]).
      rewrite Hb in Hen. discriminate.
    + now rewrite Htm, lookup_nil in Hen.
    + now rewrite Hex, lookup_nil in Hen.
    + now rewrite Hpr, lookup_nil in Hen.
    + now rewrite Hch in Hen.
  - (* failed to bind: nothing is enabled *)
    exfalso. unfold enabled in Hen. apply andb_true_iff in Hen as [_ Hen].
    destruct e as [m | h port | h msg | h path q | t | k r | p input | c];
      try discriminate.
    + assert (h = 0) as ->
        by (apply Hzero; destruct (phaseOf s h); [eauto | discriminate]).
      rewrite Hd in Hen. discriminate.
    + assert (h = 0) as ->
        by (apply Hzero; destruct (phaseOf s h); [eauto | discriminate]).
      rewrite Hd in Hen. discriminate.
    + assert (h = 0) as ->
        by (apply Hzero; destruct (phaseOf s h); [eauto | discriminate]).
      rewrite Hd in Hen. discriminate.
    + now rewrite Htm, lookup_nil in Hen.
    + now rewrite Hex, lookup_nil in Hen.
    + now rewrite Hpr, lookup_nil in Hen.
    + now rewrite Hch in Hen.
  - (* announced *)
    assert (Hnl : forall h p, e <> SrvListening h p).
    { intros h p ->. unfold enabled in Hen. apply andb_true_iff in Hen as [_ Hen].
      assert (h = 0) as ->
        by (apply Hzero; destruct (phaseOf s h); [eauto | discriminate]).
      destruct (phaseOf s 0) as [[]|]; congruence. }
    destruct (fire_continues s e Hpr Hna Hnl) as (Hc & Hp & es & Hl & Hes).
    split; [now rewrite Hc |]. split; [now rewrite Hp |].
    right. right. exists port, (rest ++ es)%list. repeat apply conj.
    + apply elem_of_app. now left.
    + intros Hb. apply Hnb. now apply (fire_never_binds s e).
    + now rewrite Hc.
    + rewrite Hl, Hlog. now rewrite <- !app_assoc.
    + apply Forall_app. split; [assumption |]. now rewrite <- Hru.
Qed.

Lemma attemptShape_mono (clientId : string) (pf : Platform) (evs : list Event)
    (e : Event) (s : State) :
  attemptShape clientId pf evs s -> attemptShape clientId pf (evs ++ [e]) s.
Proof.
  intros (Hc & Hp & [H | [H | (port & rest & Hin & H)]]);
    (split; [exact Hc |]); (split; [exact Hp |]); [tauto | tauto |].
  right. right. exists port, rest. split; [| exact H].
  apply elem_of_app. now left.
Qed.

Lemma shape_run (clientId secret : string) (pf : Platform) (evs : list Event) :
  Forall (fun e => isAuthorize e = false) evs ->
  attemptShape clientId pf evs
    (run (newOAuthFlow clientId secret pf) (Authorize false :: evs)).
Proof.
  induction evs as [|e evs IH] using rev_ind; intros Hall.
  - split; [reflexivity |]. split; [reflexivity |]. left.
    repeat apply conj; reflexivity.
  - apply Forall_app in Hall as [Hall He]. apply Forall_inv in He.
    destruct (attempt_invariants clientId secret pf evs Hall) as (Hinv & _).
    specialize (IH Hall). rewrite app_comm_cons, run_app.
    set (s := run (newOAuthFlow clientId secret pf) (Authorize false :: evs)) in *.
    clearbody s. unfold run. cbn [fold_left]. unfold step.
    destruct (enabled s e) eqn:Hen.
    + now apply shape_fire.
    + now apply attemptShape_mono.
Qed.

Lemma afterAnnouncement_quiet (ru : option string) (rest : list Effect) :
  Forall (afterAnnouncement ru) rest ->
  List.filter isSpawn rest = [] /\ List.filter isSetTimeout rest = [].
Proof.
  induction 1 as [|x rest Hx _ [IH1 IH2]]; [split; reflexivity |].
  destruct x; cbn in *; try contradiction; now split.
Qed.

Lemma browserCommand_last (pf : Platform) (url : string) :
  last (snd (browserCommand pf url)) = Some url.
Proof. now destruct pf. Qed.

(** X8: every exchange of an automated attempt uses the redirect URI
    [http://localhost:<port>] of the port the listener reported, which
    is the redirect URI of the authorization URL printed before, and
    is still the one of the instance's client at the end. *)
Theorem X8_exchange_uses_the_announced_redirect
    (clientId secret : string) (pf : Platform) (evs : list Event)
    (k : nat) (code : qval) (ru : option string) :
  Forall (fun e => isAuthorize e = false) evs ->
  let s := run (newOAuthFlow clientId secret pf) (Authorize false :: evs) in
  EGetToken k code ru ∈ log s ->
  exists port,
    SrvListening 0 port ∈ evs
    /\ ru = Some (loopback port)
    /\ _redirectUri (oauth2Client s) = Some (loopback port)
    /\ EConsoleLog (buildAuthUrl clientId (loopback port)) ∈ log s.
Proof.
  intros Hall s Hin.
  destruct (shape_run clientId secret pf evs Hall)
    as (_ & _ & [(_ & _ & Hlog & _) | [(_ & _ & (a & r & Hlog) & _)
                | (port & rest & Hev & _ & Hru & Hlog & Hrest)]]);
    fold s in Hlog; rewrite Hlog in Hin.
  - repeat (apply elem_of_cons in Hin as [Hin | Hin]; [discriminate |]).
    now apply elem_of_nil in Hin.
  - repeat (apply elem_of_cons in Hin as [Hin | Hin]; [discriminate |]).
    now apply elem_of_nil in Hin.
  - exists port. fold s in Hru. repeat apply conj; try assumption.
    + apply elem_of_app in Hin as [Hin | Hin];
        [| apply elem_of_app in Hin as [Hin | Hin]].
      * repeat (apply elem_of_cons in Hin as [Hin | Hin]; [discriminate |]).
        now apply elem_of_nil in Hin.
      * repeat (apply elem_of_cons in Hin as [Hin | Hin]; [discriminate |]).
        now apply elem_of_nil in Hin.
      * exact (proj1 (Forall_forall _ _) Hrest _ Hin).
    + rewrite Hlog. apply elem_of_app. right. apply elem_of_app. left.
      unfold announcement. do 2 (apply elem_of_cons; right). apply elem_of_cons. now left.
Qed.

Lemma X8_witness :
  let evs := [SrvListening 0 4242; Request 0 (Some "/") (codeQuery "4/0AbC")] in
  let s := run (newOAuthFlow "id" "secret" OtherPlatform) (Authorize false :: evs) in
  exists port,
    SrvListening 0 port ∈ evs
    /\ Some "http://localhost:4242" = Some (loopback port)
    /\ _redirectUri (oauth2Client s) = Some (loopback port)
    /\ EConsoleLog (buildAuthUrl "id" (loopback port)) ∈ log s.
Proof.
  intros evs.
  apply (X8_exchange_uses_the_announced_redirect "id" "secret" OtherPlatform evs
           0 (QStr "4/0AbC") (Some "http://localhost:4242")).
  - repeat constructor.
  - vm_compute. repeat constructor.
Defined.

(** X9: an automated attempt opens the browser at most once and sets
    at most one timer.  When it does, the listener had reported a
    port, the command of the platform gets the printed authorization
    URL as its last argument, and the timer is set to 120000 ms. *)
Theorem X9_one_browser_one_timer
    (clientId secret : string) (pf : Platform) (evs : list Event) :
  Forall (fun e => isAuthorize e = false) evs ->
  let s := run (newOAuthFlow clientId secret pf) (Authorize false :: evs) in
  (List.filter isSpawn (log s) = [] /\ List.filter isSetTimeout (log s) = [])
  \/ exists port,
       SrvListening 0 port ∈ evs
       /\ let url := buildAuthUrl clientId (loopback port) in
          List.filter isSpawn (log s)
          = [ESpawn 0 (fst (browserCommand pf url)) (snd (browserCommand pf url))]
          /\ last (snd (browserCommand pf url)) = Some url
          /\ List.filter isSetTimeout (log s) = [ESetTimeout 0 TIMEOUT_MS]
          /\ EConsoleLog url ∈ log s.
Proof.
  intros Hall s.
  destruct (shape_run clientId secret pf evs Hall)
    as (_ & _ & [(_ & _ & Hlog & _) | [(_ & _ & (a & r & Hlog) & _)
                | (port & rest & Hev & _ & Hru & Hlog & Hrest)]]);
    fold s in Hlog; rewrite Hlog.
  - left. split; reflexivity.
  - left. split; reflexivity.
  - right. exists port. split; [assumption |].
    destruct (afterAnnouncement_quiet _ _ Hrest) as [Hsp Hst].
    cbv zeta. rewrite !List.filter_app, Hsp, Hst.
    repeat apply conj; try reflexivity.
    + apply browserCommand_last.
    + apply elem_of_app. right. apply elem_of_app. left.
      unfold announcement. do 2 (apply elem_of_cons; right). apply elem_of_cons. now left.
Qed.

Lemma X9_witness :
  let evs := [SrvListening 0 4242; TimerFires 0; SrvListening 0 9; Request 0 (Some "/") (codeQuery "c")] in
  let s := run (newOAuthFlow "id" "secret" Win32) (Authorize false :: evs) in
  (List.filter isSpawn (log s) = [] /\ List.filter isSetTimeout (log s) = [])
  \/ exists port,
       SrvListening 0 port ∈ evs
       /\ let url := buildAuthUrl "id" (loopback port) in
          List.filter isSpawn (log s)
          = [ESpawn 0 (fst (browserCommand Win32 url)) (snd (browserCommand Win32 url))]
          /\ last (snd (browserCommand Win32 url)) = Some url
          /\ List.filter isSetTimeout (log s) = [ESetTimeout 0 TIMEOUT_MS]
          /\ EConsoleLog url ∈ log s.
Proof.
  intros evs.
  apply (X9_one_browser_one_timer "id" "secret" Win32 evs).
  repeat constructor.
Defined.

(** X14: when a request to [/] without error and without code
    reaches an automated attempt while [authorize()] is unresolved, the
    browser is answered with the 400 page, no exchange is started, and
    [authorize()] throws "No authorization code", whatever the runtime
    delivers afterwards; over the whole attempt the server is closed
    once and the timer cleared once. *)
Theorem X14_callback_without_code
    (clientId secret : string) (pf : Platform)
    (pre evs : list Event) (h : nat) (q : gmap string qval) :
  Forall (fun e => isAuthorize e = false) pre ->
  Forall (fun e => isAuthorize e = false) evs ->
  truthy (q !! "error") = false -> truthy (q !! "code") = false ->
  let s1 := run (newOAuthFlow clientId secret pf) (Authorize false :: pre) in
  promises s1 !! 0 = Some None ->
  enabled s1 (Request h (Some "/") q) = true ->
  let s2 := step s1 (Request h (Some "/") q) in
  let s := run s2 evs in
  authorizeOutcome s 0 = Some (inr "No authorization code")
  /\ ERespond 400 "<html><body><h1>No authorization code</h1></body></html>" ∈ log s2
  /\ count isGetToken s2 = count isGetToken s1
  /\ count isServerClose s = 1
  /\ count isClearTimeout s = 1.
Proof.
  intros Hpre Hall He Hc s1 Hpend Hen s2 s.
  destruct (attempt_invariants clientId secret pf pre Hpre) as (Hinv & Hz & Hp & Hq).
  fold s1 in Hinv, Hz, Hp, Hq. clearbody s1.
  assert (Hs2 : s2 = fire s1 (Request h (Some "/") q)) by (unfold s2, step; now rewrite Hen).
  unfold enabled in Hen. apply andb_true_iff in Hen as [_ Hen].
  assert (h = 0) as ->.
  { apply (binding_handle s1); [apply Hinv |].
    destruct (phaseOf s1 h); [eauto | discriminate]. }
  assert (Hnb : phaseOf s1 0 <> Some Binding).
  { intros Hb. rewrite Hb in Hen. discriminate. }
  destruct (pending_listening s1 Hinv Hz Hp Hpend Hnb)
    as (Hs & Ht & (sv & p & Hsv & Hl & Ha) & Hc1 & Hc2).
  destruct (terminal_step s1
              (ERespond 400 "<html><body><h1>No authorization code</h1></body></html>")
              (failure (QStr "No authorization code")))
    as (Hp2 & Hcs & Hct & Hg & Hin & Hr); try reflexivity; try assumption;
    [apply Hinv | eauto |].
  assert (Hs2' : s2 = resolve 0 (failure (QStr "No authorization code"))
                        (cleanup (emit (ERespond 400
                            "<html><body><h1>No authorization code</h1></body></html>")
                                    s1))).
  { rewrite Hs2. cbn [fire]. rewrite Hsv, Ha. unfold onRequest, handleCallback.
    now rewrite He, Hc. }
  rewrite <- Hs2' in Hp2, Hcs, Hct, Hg, Hin, Hr.
  destruct (released_run evs s2 Hr Hall) as [_ [Hc' Ht']]. fold s in Hc', Ht'.
  pose proof (run_keeps evs s2 0 _ Hp2) as Hp'. fold s in Hp'.
  repeat split; try assumption; try congruence.
  unfold authorizeOutcome. now rewrite Hp'.
Qed.

Lemma X14_witness :
  let pre := [SrvListening 0 4242; Request 0 (Some "/") (codeQuery "4/0AbC")] in
  let evs := [Settles 0 (Tokens (Some "1//rt")); TimerFires 0] in
  let q : gmap string qval := {[ "state" := QStr "xyz" ]} in
  let s1 := run (newOAuthFlow "id" "secret" Darwin) (Authorize false :: pre) in
  let s2 := step s1 (Request 0 (Some "/") q) in
  let s := run s2 evs in
  authorizeOutcome s 0 = Some (inr "No authorization code")
  /\ ERespond 400 "<html><body><h1>No authorization code</h1></body></html>" ∈ log s2
  /\ count isGetToken s2 = count isGetToken s1
  /\ count isServerClose s = 1
  /\ count isClearTimeout s = 1.
Proof.
  intros pre evs q.
  apply (X14_callback_without_code "id" "secret" Darwin pre evs 0 q).
  - repeat constructor.
  - repeat constructor.
  - vm_compute; reflexivity.
  - vm_compute; reflexivity.
  - vm_compute; reflexivity.
  - vm_compute; reflexivity.
Defined.

Lemma resolve_inv (a b : nat) (r x : AuthResult) (s : State) :
  promises (resolve a r s) !! b = Some (Some x) ->
  promises s !! b = Some (Some x) \/ x = r.
Proof.
  unfold resolve. destruct (promises s !! a) as [[y|]|] eqn:Ha; cbn; auto.
  destruct (decide (a = b)) as [->|Hne].
  - rewrite list_lookup_insert_eq by (eapply lookup_lt_Some; eauto).
    intros [= ->]. now right.
  - rewrite list_lookup_insert_ne by assumption. auto.
Qed.

Lemma resolve_cleanup_inv (a b : nat) (r x : AuthResult) (s : State) :
  promises (resolve a r (cleanup s)) !! b = Some (Some x) ->
  promises s !! b = Some (Some x) \/ x = r.
Proof. intros H%resolve_inv. now rewrite promises_cleanup in H. Qed.

(** Only a settled exchange resolves a promise with a success. *)
Lemma fire_success (s : State) (e : Event) (b : nat) (x : AuthResult) :
  promises (fire s e) !! b = Some (Some x) -> success x = true ->
  promises s !! b = Some (Some x)
  \/ exists k rt, e = Settles k (Tokens rt) /\ x = succeeded rt.
Proof.
  intros H Hx.
  assert (Hf : forall q, x <> failure q) by (intros q ->; discriminate).
  destruct e as [m | h port | h msg | h path q | t | k r | p input | c];
    cbn [fire] in H.
  - left.
    assert (Hl : ((promises s ++ [None])%list : list (option AuthResult)) !! b
                 = Some (Some x)) by (destruct m; exact H).
    destruct (decide (b < length (promises s))) as [Hlt|Hge].
    + now rewrite lookup_app_l in Hl.
    + rewrite lookup_app_r in Hl by lia.
      destruct (b - length (promises s)) as [|n]; discriminate.
  - left. destruct (servers s !! h); [| exact H]. unfold onListening in H.
    cbn in H. now destruct (server s).
  - left. destruct (servers s !! h); [| exact H]. unfold onServerError in H.
    apply resolve_cleanup_inv in H as [H | H]; [exact H | now destruct (Hf _ H)].
  - left. destruct (servers s !! h); [| exact H]. unfold onRequest in H.
    destruct (isRoot path); [| exact H]. unfold handleCallback in H.
    destruct (truthy (q !! "error")); [| destruct (negb (truthy (q !! "code")))];
      try (apply resolve_cleanup_inv in H as [H | H];
           [exact H | now destruct (Hf _ H)]).
    exact H.
  - left. destruct (timers s !! t); [| exact H]. unfold onTimeout in H.
    apply resolve_cleanup_inv in H as [H | H]; [exact H | now destruct (Hf _ H)].
  - destruct (exchanges s !! k) as [ex|]; [| now left].
    destruct (ex_awaiter ex), r as [rt | m];
      cbn [handleCallback_resume onLine_resume] in H;
      first [apply resolve_cleanup_inv in H | apply resolve_inv in H];
      destruct H as [H | H]; eauto; now destruct (Hf _ H).
  - left. destruct (prompts s !! p); [| exact H]. unfold onLine in H.
    destruct input as [path q | m]; [destruct (negb (truthy (q !! "code")))|];
      try (apply resolve_inv in H as [H | H]; [exact H | now destruct (Hf _ H)]).
    exact H.
  - left. exact H.
Qed.

Lemma run_success (evs : list Event) (s : State) (b : nat) (x : AuthResult) :
  promises (run s evs) !! b = Some (Some x) -> success x = true ->
  promises s !! b = Some (Some x)
  \/ exists k rt, Settles k (Tokens rt) ∈ evs /\ x = succeeded rt.
Proof.
  revert s. induction evs as [|e evs IH]; intros s H Hx; [now left |].
  rewrite run_cons in H. destruct (IH _ H Hx) as [H1 | (k & rt & Hin & ->)].
  - unfold step in H1. destruct (enabled s e); [| now left].
    destruct (fire_success s e b x H1 Hx) as [H2 | (k & rt & -> & ->)]; [now left |].
    right. exists k, rt. split; [apply elem_of_cons; now left | reflexivity].
  - right. exists k, rt. split; [apply elem_of_cons; now right | reflexivity].
Qed.

Lemma authorizeReturn_token (r : AuthResult) (token : string) :
  authorizeReturn r = inl token ->
  success r = true /\ refreshToken r = Some token /\ token <> EmptyString.
Proof.
  unfold authorizeReturn. destruct (success r); cbn; [| discriminate].
  destruct (refreshToken r) as [[|c t]|]; try discriminate.
  intros [= <-]. repeat split. discriminate.
Qed.

(** A token returned by [authorize] was delivered by an exchange. *)
Lemma outcome_token (clientId secret : string) (pf : Platform) (manual : bool)
    (evs : list Event) (token : string) :
  authorizeOutcome (run (newOAuthFlow clientId secret pf) (Authorize manual :: evs)) 0
  = Some (inl token) ->
  token <> EmptyString /\ exists k, Settles k (Tokens (Some token)) ∈ evs.
Proof.
  unfold authorizeOutcome.
  destruct (promises _ !! 0) as [[r|]|] eqn:Hp; try discriminate.
  intros [= Hr]. apply authorizeReturn_token in Hr as (Hs & Ht & Hne).
  split; [exact Hne |].
  apply run_success in Hp as [Hp | (k & rt & Hin & ->)]; [| | exact Hs].
  - discriminate.
  - apply elem_of_cons in Hin as [Hin | Hin]; [discriminate |].
    exists k. cbn in Ht. destruct rt as [[|c t]|]; try discriminate.
    cbn in Ht. now injection Ht as <-.
Qed.

(** X10: [main] stores an account only for the command
    [accounts add <email> ...], for a nonempty [email] that is not
    stored yet, with the configured credentials and a nonempty refresh
    token that an exchange of the flow delivered; it then prints
    "Account '<email>' added" and does not leave the process with an
    error. *)
Theorem X10_account_stored_only_with_exchanged_token
    (st : AccountStorage) (pf : Platform) (args : list string) (evs : list Event)
    (es : list Cli) (email clientId clientSecret token : string) :
  main st pf args evs = Effects es ->
  CAddAccount email clientId clientSecret token ∈ es ->
  (exists rest, args = "accounts" :: "add" :: email :: rest)
  /\ email <> EmptyString
  /\ hasAccount st email = false
  /\ getCredentials st = Some (clientId, clientSecret)
  /\ token <> EmptyString
  /\ (exists k, Settles k (Tokens (Some token)) ∈ evs)
  /\ es = [CAddAccount email clientId clientSecret token;
           CLog ("Account '" +:+ email +:+ "' added")].
Proof.
  intros Hmain Hin.
  assert (Hno : forall l c, CAddAccount email clientId clientSecret token ∈ [CError l; CExit c]
                            -> False).
  { intros l c H. repeat (apply elem_of_cons in H as [H | H]; [discriminate |]).
    now apply elem_of_nil in H. }
  unfold main in Hmain. destruct args as [|a0 rest]; [discriminate |].
  destruct (String.eqb a0 "--help" || String.eqb a0 "-h"); [discriminate |].
  destruct (String.eqb a0 "accounts") eqn:Ha.
  - apply String.eqb_eq in Ha as ->.
    destruct rest as [|action rest]; [discriminate |]. cbn [lookup list_lookup] in Hmain.
    destruct (String.eqb action "add") eqn:Hadd; [| discriminate].
    apply String.eqb_eq in Hadd as ->.
    unfold handleAccounts_add in Hmain.
    destruct rest as [|e rest];
      [cbn in Hmain; injection Hmain as <-; now destruct (Hno _ _ Hin) |].
    cbn [lookup list_lookup] in Hmain.
    destruct e as [|c e'];
      [injection Hmain as <-; now destruct (Hno _ _ Hin) |].
    destruct (hasAccount st (String c e')) eqn:Hhas;
      [injection Hmain as <-; now destruct (Hno _ _ Hin) |].
    destruct (getCredentials st) as [[cid sec]|] eqn:Hcr;
      [| injection Hmain as <-; now destruct (Hno _ _ Hin)].
    cbv zeta in Hmain.
    destruct (authorizeOutcome _ 0) as [[tok | msg]|] eqn:Hout.
    + injection Hmain as <-.
      apply elem_of_cons in Hin as [Hin | Hin].
      * injection Hin as -> -> -> ->.
        destruct (outcome_token _ _ _ _ _ _ Hout) as [Hne Hk].
        repeat apply conj; eauto; discriminate.
      * apply elem_of_cons in Hin as [Hin | Hin]; [discriminate |].
        now apply elem_of_nil in Hin.
    + injection Hmain as <-. now destruct (Hno _ _ Hin).
    + destruct (crashed _); [discriminate |]. injection Hmain as <-.
      now apply elem_of_nil in Hin.
  - destruct (negb (includes "@" a0));
      [injection Hmain as <-; now destruct (Hno _ _ Hin) |].
    destruct (negb (hasAccount st a0));
      [injection Hmain as <-; now destruct (Hno _ _ Hin) |].
    destruct (rest !! 0) as [sv|];
      [destruct (existsb (String.eqb sv) services); [discriminate |] |];
      injection Hmain as <-; now destruct (Hno _ _ Hin).
Qed.

Lemma X10_witness :
  let st := {| hasAccount := fun _ => false; getCredentials := Some ("id", "secret") |} in
  let args := ["accounts"; "add"; "a@b.c"] in
  let evs := [SrvListening 0 4242; Request 0 (Some "/") (codeQuery "4/0AbC");
              Settles 0 (Tokens (Some "1//rt"))] in
  (exists rest, args = "accounts" :: "add" :: "a@b.c" :: rest)
  /\ "a@b.c" <> EmptyString
  /\ hasAccount st "a@b.c" = false
  /\ getCredentials st = Some ("id", "secret")
  /\ "1//rt" <> EmptyString
  /\ (exists k, Settles k (Tokens (Some "1//rt")) ∈ evs)
  /\ [CAddAccount "a@b.c" "id" "secret" "1//rt"; CLog "Account 'a@b.c' added"]
     = [CAddAccount "a@b.c" "id" "secret" "1//rt";
        CLog ("Account '" +:+ "a@b.c" +:+ "' added")].
Proof.
  intros st args evs.
  apply (X10_account_stored_only_with_exchanged_token st OtherPlatform args evs
           [CAddAccount "a@b.c" "id" "secret" "1//rt"; CLog "Account 'a@b.c' added"]).
  - vm_compute; reflexivity.
  - repeat constructor.
Defined.

(** X11: [accounts add] does not look at the shape of the address:
    for a nonempty address without [@] the account is stored as soon
    as the authorization succeeds, although [main] never calls a
    service handler for such an address, whatever the storage holds. *)
Theorem X11_add_accepts_an_address_main_refuses
    (st : AccountStorage) (pf : Platform) (email : string) (rest : list string)
    (evs : list Event) (clientId clientSecret token : string) :
  email <> EmptyString ->
  includes "@" email = false ->
  hasAccount st email = false ->
  getCredentials st = Some (clientId, clientSecret) ->
  let manual := existsb (String.eqb "--manual") (email :: rest) in
  authorizeOutcome
    (run (newOAuthFlow clientId clientSecret pf) (Authorize manual :: evs)) 0
  = Some (inl token) ->
  main st pf ("accounts" :: "add" :: email :: rest) evs
  = Effects [CAddAccount email clientId clientSecret token;
             CLog ("Account '" +:+ email +:+ "' added")]
  /\ forall st' pf' rest' evs' service e a,
       main st' pf' (email :: rest') evs' <> CallsService service e a.
Proof.
  intros Hne Hat Hhas Hcr manual Hout. split.
  - unfold main. cbn [String.eqb Ascii.eqb Bool.eqb orb lookup list_lookup].
    unfold handleAccounts_add. cbn [lookup list_lookup].
    destruct email as [|c e]; [now destruct Hne |].
    rewrite Hhas, Hcr. cbv zeta.
    change (existsb (String.eqb "--manual") ("add" :: String c e :: rest)) with manual.
    now rewrite Hout.
  - intros st' pf' rest' evs' service e a. unfold main.
    destruct (String.eqb email "--help" || String.eqb email "-h"); [discriminate |].
    destruct (String.eqb email "accounts").
    + destruct (rest' !! 0) as [action|]; [| discriminate].
      destruct (String.eqb action "add"); [| discriminate].
      destruct (handleAccounts_add st' pf' rest' evs'); discriminate.
    + rewrite Hat. discriminate.
Qed.

Lemma X11_witness :
  let st := {| hasAccount := fun _ => false; getCredentials := Some ("id", "secret") |} in
  let evs := [Line 0 (ParsedUrl (Some "/") (codeQuery "4/0AbC"));
              Settles 0 (Tokens (Some "1//rt"))] in
  main st Darwin ["accounts"; "add"; "bob"; "--manual"] evs
  = Effects [CAddAccount "bob" "id" "secret" "1//rt";
             CLog ("Account '" +:+ "bob" +:+ "' added")]
  /\ forall st' pf' rest' evs' service e a,
       main st' pf' ("bob" :: rest') evs' <> CallsService service e a.
Proof.
  intros st evs.
  apply (X11_add_accepts_an_address_main_refuses st Darwin "bob" ["--manual"] evs
           "id" "secret" "1//rt").
  - discriminate.
  - reflexivity.
  - reflexivity.
  - reflexivity.
  - vm_compute; reflexivity.
Defined.

(** The guard of [download] and the values of [exports] keep the two
    tables away from the inherited names. *)
Lemma inherited_not_looked_up :
  Forall (fun k => isGoogleDoc (Some k) = false) inherited
  /\ Forall (fun m => m ∉ inherited) ("application/pdf" :: (snd <$> exports)).
Proof.
  split.
  - repeat constructor.
  - repeat (constructor; [intros H; repeat (apply elem_of_cons in H as [H | H]; [discriminate |]);
                          now apply elem_of_nil in H |]).
    constructor.
Qed.

Lemma append_cons (c : ascii) (a b : string) : String c a +:+ b = String c (a +:+ b).
Proof. reflexivity. Qed.

Lemma append_nil (b : string) : EmptyString +:+ b = b.
Proof. reflexivity. Qed.

Lemma noDot_dot (a b : string) : noDot (a +:+ "." +:+ b) = false.
Proof.
  induction a as [|c a IH].
  - reflexivity.
  - rewrite append_cons. cbn [noDot]. rewrite IH. apply andb_false_r.
Qed.

Lemma replaceExtension_noDot (b : string) : noDot b = true -> replaceExtension b = b.
Proof.
  induction b as [|c b IH]; [reflexivity |]. cbn [noDot replaceExtension].
  intros [Hc Hb]%andb_true_iff. apply negb_true_iff in Hc. rewrite Hc. cbn.
  now rewrite IH.
Qed.

Lemma eqb_append_dot (a b : string) : String.eqb (a +:+ "." +:+ b) EmptyString = false.
Proof. destruct a; reflexivity. Qed.

(** X12: the replacement [download] applies to the path of an
    exported file cuts at the last dot of the whole path, whatever
    follows it, path separators included; a path without a dot, and a
    path ending in a dot, are left as they are. *)
Theorem X12_replace_cuts_at_the_last_dot (a b : string) :
  noDot b = true ->
  replaceExtension b = b
  /\ replaceExtension (a +:+ "." +:+ b)
     = if String.eqb b EmptyString then a +:+ "." else a.
Proof.
  intros Hb. split; [now apply replaceExtension_noDot |].
  induction a as [|c a IH].
  - rewrite append_nil. change ("." +:+ b) with (String "." b).
    cbn [replaceExtension]. rewrite Hb.
    change (Ascii.eqb "." ".") with true. cbn [andb].
    destruct b as [|x b]; [reflexivity |]. reflexivity.
  - rewrite append_cons. cbn [replaceExtension].
    rewrite noDot_dot, andb_false_r, IH.
    destruct (String.eqb b EmptyString); reflexivity.
Qed.

Lemma X12_witness :
  replaceExtension "nbngcli/downloads/1AbC_Budget" = "nbngcli/downloads/1AbC_Budget"
  /\ replaceExtension ("/home/u" +:+ "." +:+ "nbngcli/downloads/1AbC_Budget")
     = if String.eqb "nbngcli/downloads/1AbC_Budget" EmptyString
       then "/home/u" +:+ "." else "/home/u".
Proof.
  apply (X12_replace_cuts_at_the_last_dot "/home/u" "nbngcli/downloads/1AbC_Budget").
  reflexivity.
Defined.



